(** * ORCA DFT Calculator: input builder, process runner and output parser

    A shallow embedding of [app.py] and the properties of its three
    functions [generate_orca_input], [run_orca_calculation] and
    [parse_orca_output].

    Python [str] values are modelled as lists of characters; a character is
    a code point below 256 (type [ascii]).  The two regular expressions of
    the parser are kept as syntax trees and run by a backtracking matcher
    that enumerates the matches in the priority order of Python's [re]. *)

From Stdlib Require Import String Ascii Bool Arith Lia ZArith List.
From Stdlib Require Import Numbers.DecimalString.
Import ListNotations.

Local Open Scope list_scope.

(** ** Strings *)

Abbreviation str := (list ascii) (only parsing).

Definition lit (s : string) : str := list_ascii_of_string s.

Definition nl : ascii := "010"%char.

Definition is_nl (c : ascii) : bool := Ascii.eqb c nl.

(** [str.isspace] on one character, which is also the class [\s] of [re]
    for [str] patterns: the Unicode white space below 256. *)
Definition is_space (c : ascii) : bool :=
  let n := nat_of_ascii c in
  ((9 <=? n) && (n <=? 13)) || ((28 <=? n) && (n <=? 32))
  || (n =? 133) || (n =? 160).

(** The class [\d]: below 256 the only decimal digits are 0 to 9. *)
Definition is_digit (c : ascii) : bool :=
  let n := nat_of_ascii c in (48 <=? n) && (n <=? 57).

Definition is_sign (c : ascii) : bool := Ascii.eqb c "-"%char || Ascii.eqb c "+"%char.
Definition is_dot (c : ascii) : bool := Ascii.eqb c "."%char.
Definition is_e (c : ascii) : bool := Ascii.eqb c "e"%char || Ascii.eqb c "E"%char.
Definition is_dash (c : ascii) : bool := Ascii.eqb c "-"%char.

(** The class [.] (without DOTALL): anything but a newline. *)
Definition not_nl (c : ascii) : bool := negb (is_nl c).

Fixpoint dropwhile (p : ascii -> bool) (s : str) : str :=
  match s with
  | c :: t => if p c then dropwhile p t else s
  | [] => []
  end.

Fixpoint takewhile (p : ascii -> bool) (s : str) : str :=
  match s with
  | c :: t => if p c then c :: takewhile p t else []
  | [] => []
  end.

(** [s.startswith(p)] *)
Fixpoint startswith (p s : str) : bool :=
  match p, s with
  | [], _ => true
  | a :: p', b :: s' => Ascii.eqb a b && startswith p' s'
  | _ :: _, [] => false
  end.

(** [s.find(p)]: the index of the first occurrence of [p] in [s]. *)
Fixpoint str_find (p s : str) : option nat :=
  if startswith p s then Some 0
  else match s with
       | [] => None
       | _ :: t => option_map S (str_find p t)
       end.

(** [p in s] *)
Definition str_in (p s : str) : bool :=
  match str_find p s with Some _ => true | None => false end.

(** [s.strip()] *)
Definition strip (s : str) : str :=
  rev (dropwhile is_space (rev (dropwhile is_space s))).

(** [s.split('\n')]: the pieces between newlines, at least one piece. *)
Fixpoint split_nl (s : str) : list str :=
  match s with
  | [] => [[]]
  | c :: t =>
      if is_nl c then [] :: split_nl t
      else match split_nl t with
           | l :: ls => (c :: l) :: ls
           | [] => [[c]]
           end
  end.

(** [s.split()]: the maximal runs of characters that are not white space.
    [cur] is the run being read, reversed. *)
Fixpoint split_ws_aux (cur : str) (s : str) : list str :=
  match s with
  | [] => match cur with [] => [] | _ => [rev cur] end
  | c :: t =>
      if is_space c
      then match cur with
           | [] => split_ws_aux [] t
           | _ => rev cur :: split_ws_aux [] t
           end
      else split_ws_aux (c :: cur) t
  end.

Definition split_ws (s : str) : list str := split_ws_aux [] s.

(** [sep.join(ls)] *)
Fixpoint join (sep : str) (ls : list str) : str :=
  match ls with
  | [] => []
  | [l] => l
  | l :: ls' => l ++ sep ++ join sep ls'
  end.

(** Every line followed by a newline. *)
Definition unlines (ls : list str) : str :=
  flat_map (fun l => l ++ [nl]) ls.

(** [format(s, '2s')] and the like: pad on the right to a minimal width. *)
Definition ljust (w : nat) (s : str) : str := s ++ repeat " "%char (w - length s).

(** [format(s, '>12s')]: pad on the left to a minimal width. *)
Definition rjust (w : nat) (s : str) : str := repeat " "%char (w - length s) ++ s.

(** ** The strings accepted by [float]

    [float(s)] on a [str] without white space: underscores are allowed
    between two digits only and are removed; what is left is an optional
    sign followed by [inf], [infinity] or [nan] in any letter case, or by a
    decimal number with at least one digit in its mantissa and an optional
    exponent. *)

Fixpoint underscores_ok (prev : option ascii) (s : str) : bool :=
  match s with
  | [] => match prev with
          | Some p => negb (Ascii.eqb p "_"%char)
          | None => true
          end
  | c :: t =>
      (if Ascii.eqb c "_"%char
       then match prev with Some p => is_digit p | None => false end
       else match prev with
            | Some p => if Ascii.eqb p "_"%char then is_digit c else true
            | None => true
            end)
      && underscores_ok (Some c) t
  end.

Definition remove_underscores (s : str) : str :=
  filter (fun c => negb (Ascii.eqb c "_"%char)) s.

Definition lower (c : ascii) : ascii :=
  let n := nat_of_ascii c in
  if (65 <=? n) && (n <=? 90) then ascii_of_nat (n + 32) else c.

Definition drop_sign (s : str) : str :=
  match s with
  | c :: t => if is_sign c then t else s
  | [] => []
  end.

Definition is_inf_or_nan (s : str) : bool :=
  let l := map lower s in
  existsb (fun w => startswith w l && (length w =? length l))
          [lit "inf"; lit "infinity"; lit "nan"].

Definition exponent_ok (s : str) : bool :=
  match s with
  | [] => true
  | c :: t =>
      is_e c &&
      (let d := drop_sign t in
       negb (length d =? 0) && forallb is_digit d)
  end.

Definition decimal_ok (s : str) : bool :=
  let ip := takewhile is_digit s in
  let r := dropwhile is_digit s in
  match r with
  | c :: t =>
      if is_dot c
      then let fp := takewhile is_digit t in
           negb (length ip + length fp =? 0)
           && exponent_ok (dropwhile is_digit t)
      else negb (length ip =? 0) && exponent_ok r
  | [] => negb (length ip =? 0)
  end.

Definition float_ok (s : str) : bool :=
  underscores_ok None s &&
  (let b := drop_sign (remove_underscores s) in
   is_inf_or_nan b || decimal_ok b).

(** ** Regular expressions

    The fragment of Python's [re] syntax that the two patterns use.  There
    is one capturing group per pattern, so a match state carries the text
    of that group (if it has matched) and the input that is left. *)

Inductive regex : Type :=
| Eps : regex
| Chr : (ascii -> bool) -> regex
| Seq : regex -> regex -> regex
| Alt : regex -> regex -> regex
| Star : bool -> regex -> regex
| Group : regex -> regex
| Ahead : regex -> regex.

Abbreviation mstate := (option str * str)%type (only parsing).

(** A repetition.  [body] gives the matches of one iteration in priority
    order; a greedy repetition tries one more iteration before stopping, a
    lazy one tries to stop first.  An iteration has to consume input (the
    bodies of the patterns below always do); [fuel] bounds the number of
    iterations and the length of the input is enough. *)
Fixpoint star (greedy : bool) (body : mstate -> list mstate)
         (fuel : nat) (st : mstate) : list mstate :=
  match fuel with
  | 0 => [st]
  | S n =>
      let more :=
        flat_map (fun st' =>
                    if length (snd st') <? length (snd st)
                    then star greedy body n st' else [])
                 (body st) in
      if greedy then more ++ [st] else st :: more
  end.

(** All the ways [r] matches at the start of the input, first the one a
    backtracking matcher finds first. *)
Fixpoint m (r : regex) (st : mstate) : list mstate :=
  match r with
  | Eps => [st]
  | Chr p =>
      match snd st with
      | c :: t => if p c then [(fst st, t)] else []
      | [] => []
      end
  | Seq r1 r2 => flat_map (m r2) (m r1 st)
  | Alt r1 r2 => m r1 st ++ m r2 st
  | Star g r' => star g (m r') (length (snd st)) st
  | Group r' =>
      map (fun st' =>
             (Some (firstn (length (snd st) - length (snd st')) (snd st)),
              snd st'))
          (m r' st)
  | Ahead r' =>
      match m r' st with
      | st' :: _ => [(fst st', snd st)]
      | [] => []
      end
  end.

Fixpoint Lit (s : str) : regex :=
  match s with
  | [] => Eps
  | c :: t => Seq (Chr (Ascii.eqb c)) (Lit t)
  end.

Definition Plus (r : regex) : regex := Seq r (Star true r).
Definition Opt (r : regex) : regex := Alt r Eps.

(** [re.search]: the first match at the leftmost position that has one. *)
Fixpoint re_search (r : regex) (s : str) : option mstate :=
  match m r (None, s) with
  | st :: _ => Some st
  | [] => match s with
          | [] => None
          | _ :: t => re_search r t
          end
  end.

Definition group1 (st : mstate) : str :=
  match fst st with Some g => g | None => [] end.

(** [re.findall] for a pattern with one group: the group of each match,
    the search resuming where the previous match ended.  The matches of
    the pattern below are never empty; after an empty match the scan moves
    on by one character. *)
Fixpoint findall_fuel (fuel : nat) (r : regex) (s : str) : list str :=
  match fuel with
  | 0 => []
  | S n =>
      match re_search r s with
      | None => []
      | Some st =>
          group1 st ::
          (if length (snd st) <? length s then findall_fuel n r (snd st)
           else match snd st with
                | [] => []
                | _ :: t => findall_fuel n r t
                end)
      end
  end.

Definition re_findall (r : regex) (s : str) : list str :=
  findall_fuel (S (length s)) r s.

(** ** The patterns of [parse_orca_output] *)

Definition ENERGY_LABEL : str := lit "FINAL SINGLE POINT ENERGY".

Definition COORD_HEADER : str := lit "CARTESIAN COORDINATES (ANGSTROEM)".

(** [(?:[eE][-+]?\d+)?] *)
Definition exponent_re : regex :=
  Opt (Seq (Chr is_e) (Seq (Opt (Chr is_sign)) (Plus (Chr is_digit)))).

(** [[-+]?\d*\.?\d+(?:[eE][-+]?\d+)?] *)
Definition number_re : regex :=
  Seq (Opt (Chr is_sign))
   (Seq (Star true (Chr is_digit))
    (Seq (Opt (Chr is_dot))
     (Seq (Plus (Chr is_digit)) exponent_re))).

(** [FINAL SINGLE POINT ENERGY\s+(...)] *)
Definition energy_pattern : regex :=
  Seq (Lit ENERGY_LABEL) (Seq (Plus (Chr is_space)) (Group number_re)).

(** [-{3,}|\n\s*\n] *)
Definition terminator_re : regex :=
  Alt (Seq (Chr is_dash) (Seq (Chr is_dash) (Plus (Chr is_dash))))
      (Seq (Chr is_nl) (Seq (Star true (Chr is_space)) (Chr is_nl))).

(** [.*\n] *)
Definition line_re : regex := Seq (Star true (Chr not_nl)) (Chr is_nl).

(** [CARTESIAN COORDINATES \(ANGSTROEM\)\s*-+\s*\n((?:.*\n)*?)(?=-{3,}|\n\s*\n)] *)
Definition geometry_pattern : regex :=
  Seq (Lit COORD_HEADER)
   (Seq (Star true (Chr is_space))
    (Seq (Plus (Chr is_dash))
     (Seq (Star true (Chr is_space))
      (Seq (Chr is_nl)
       (Seq (Group (Star false line_re)) (Ahead terminator_re)))))).

(** ** The pure part of [parse_orca_output] *)

Definition NOT_FOUND : str := lit "Not found".

Definition parse_energy (content : str) : str :=
  match re_search energy_pattern content with
  | Some st => group1 st
  | None => NOT_FOUND
  end.

Definition format_atom (parts : list str) : str :=
  ljust 2 (nth 0 parts []) ++ lit "  " ++ rjust 12 (nth 1 parts [])
  ++ lit "  " ++ rjust 12 (nth 2 parts []) ++ lit "  "
  ++ rjust 12 (nth 3 parts []).

(** One turn of the loop over the lines of the block. *)
Definition atom_step (atom_lines : list str) (line0 : str) : list str :=
  let line := strip line0 in
  if negb (length line =? 0) && negb (startswith (lit "-") line) then
    let parts := split_ws line in
    if 4 <=? length parts then
      if float_ok (nth 1 parts []) && float_ok (nth 2 parts [])
         && float_ok (nth 3 parts [])
      then atom_lines ++ [format_atom parts]
      else atom_lines
    else atom_lines
  else atom_lines.

Definition atom_lines_of (geometry_text : str) : list str :=
  fold_left atom_step (split_nl geometry_text) [].

Definition geometry_of_block (block : str) : str :=
  match atom_lines_of (strip block) with
  | [] => NOT_FOUND
  | ls => join [nl] ls
  end.

Definition parse_geometry (content : str) : str :=
  match rev (re_findall geometry_pattern content) with
  | last_match :: _ => geometry_of_block last_match
  | [] => NOT_FOUND
  end.

(** ** [generate_orca_input] *)

Definition generate_orca_input
           (geometry method basis calculation_type : str) : str :=
  lit "! " ++ method ++ lit " " ++ basis ++ lit " " ++ calculation_type
  ++ [nl] ++ [nl] ++ lit "* xyz 0 1" ++ [nl] ++ geometry ++ [nl]
  ++ lit "*" ++ [nl].

(** The first line of the document. *)
Definition directive_line (method basis calculation_type : str) : str :=
  lit "! " ++ method ++ lit " " ++ basis ++ lit " " ++ calculation_type.

Definition no_newline (l : str) : bool := negb (existsb is_nl l).

(** The default values of the keyword arguments. *)
Definition default_method : str := lit "B3LYP".
Definition default_basis : str := lit "def2-SVP".
Definition default_calculation_type : str := lit "Opt".

(** ** Programs with calls to the operating system

    The two functions that touch the file system or start a process are
    embedded as trees of calls: each call is answered by the environment
    with a value or with an exception, and [try_catch] is the [try] ...
    [except] of the source.  The exceptions are instances of [Exception],
    told apart as the [except] clauses do: [subprocess.TimeoutExpired] or
    any other; each carries its [str(e)]. *)

Inductive exn : Type :=
| TimeoutExpired : str -> exn
| OtherException : str -> exn.

Definition str_of_exn (e : exn) : str :=
  match e with
  | TimeoutExpired msg => msg
  | OtherException msg => msg
  end.

Inductive outcome (A : Type) : Type :=
| Ok : A -> outcome A
| Raise : exn -> outcome A.

Arguments Ok {A} _.
Arguments Raise {A} _.

(** The arguments of [subprocess.run]. *)
Record run_args : Type := {
  args : str;
  shell : bool;
  cwd : str;
  timeout : Z
}.

(** The calls: writing a file ([open(p, 'w')] and [write]),
    [subprocess.run], answered by the [returncode] of the completed
    process, [os.path.exists], [os.listdir], and reading a file
    ([open(p, 'r')] and [read]). *)
Inductive call : Type -> Type :=
| WriteFile : str -> str -> call unit
| SubprocessRun : run_args -> call Z
| PathExists : str -> call bool
| ListDir : str -> call (list str)
| ReadFile : str -> call str.

Inductive prog (A : Type) : Type :=
| Ret : A -> prog A
| Throw : exn -> prog A
| Do : forall B : Type, call B -> (outcome B -> prog A) -> prog A.

Arguments Ret {A} _.
Arguments Throw {A} _.
Arguments Do {A B} _ _.

(** A call outside any handler: its exception goes on to the caller. *)
Definition perform {B : Type} (c : call B) : prog B :=
  Do c (fun o => match o with Ok b => Ret b | Raise e => Throw e end).

Fixpoint bind {A B : Type} (p : prog A) (f : A -> prog B) : prog B :=
  match p with
  | Ret a => f a
  | Throw e => Throw e
  | Do c k => Do c (fun o => bind (k o) f)
  end.

Fixpoint try_catch {A : Type} (p : prog A) (h : exn -> prog A) : prog A :=
  match p with
  | Ret a => Ret a
  | Throw e => h e
  | Do c k => Do c (fun o => try_catch (k o) h)
  end.

Notation "x <- p ;; q" := (bind p (fun x => q))
  (at level 61, p at next level, right associativity).

(** One call as the environment saw it. *)
Inductive event : Type :=
| Called : forall B : Type, call B -> event.

Arguments Called {B} _.

Definition is_read (e : event) : bool :=
  match e with
  | Called (ReadFile _) => true
  | _ => false
  end.

Definition launch_of (e : event) : option run_args :=
  match e with
  | Called (SubprocessRun a) => Some a
  | _ => None
  end.

(** An environment answers every call and moves to its next state. *)
Definition env (W : Type) : Type :=
  forall B : Type, call B -> W -> outcome B * W.

(** Running a program in an environment: the result (a value returned or
    an exception that reached the caller), the final state of the
    environment and the calls made, in order. *)
Fixpoint exec {W A : Type} (os : env W) (p : prog A) (w : W)
  : outcome A * W * list event :=
  match p with
  | Ret a => (Ok a, w, [])
  | Throw e => (Raise e, w, [])
  | Do c k =>
      let '(o, w1) := os _ c w in
      let '(r, w2, tr) := exec os (k o) w1 in
      (r, w2, Called c :: tr)
  end.

Definition result_of {W A : Type} (x : outcome A * W * list event) : outcome A :=
  fst (fst x).

Definition trace_of {W A : Type} (x : outcome A * W * list event) : list event :=
  snd x.

(** ** [run_orca_calculation] *)

(** [os.path.join(a, b)] on a POSIX system. *)
Definition path_join (a b : str) : str :=
  if startswith (lit "/") b then b
  else if (length a =? 0) || startswith (lit "/") (rev a) then a ++ b
  else a ++ lit "/" ++ b.

(** [str(n)] for an [int]. *)
Definition str_of_int (z : Z) : str := lit (NilZero.string_of_int (Z.to_int z)).

Definition hex_digit (n : nat) : ascii :=
  nth n (lit "0123456789abcdef") "0"%char.

(** [str.isprintable] on a character below 256. *)
Definition is_printable (c : ascii) : bool :=
  let n := nat_of_ascii c in
  ((32 <=? n) && (n <=? 126)) || ((161 <=? n) && negb (n =? 173)).

Definition repr_char (quote : ascii) (c : ascii) : str :=
  if Ascii.eqb c quote || Ascii.eqb c "\"%char then ["\"%char; c]
  else if Ascii.eqb c "009"%char then lit "\t"
  else if Ascii.eqb c "010"%char then lit "\n"
  else if Ascii.eqb c "013"%char then lit "\r"
  else if is_printable c then [c]
  else let n := nat_of_ascii c in
       lit "\x" ++ [hex_digit (n / 16); hex_digit (n mod 16)].

(** [repr(s)] for a [str]. *)
Definition repr_str (s : str) : str :=
  let has c := existsb (Ascii.eqb c) s in
  let quote := if has "'"%char && negb (has "034"%char)
               then "034"%char else "'"%char in
  [quote] ++ flat_map (repr_char quote) s ++ [quote].

(** [str(l)] for a list of [str]. *)
Definition str_of_list (l : list str) : str :=
  lit "[" ++ join (lit ", ") (map repr_str l) ++ lit "]".

Definition SUCCESS_MARKER : str := lit "ORCA TERMINATED NORMALLY".

Definition TIMEOUT_MSG : str := lit "Calculation timed out after 5 minutes".

Definition ABNORMAL_MSG : str :=
  lit "ORCA did not terminate normally. Check output file for errors.".

Definition missing_output_msg (returncode : Z) (files_created : list str) : str :=
  let error_msg :=
    lit "ORCA did not create output file." ++ [nl] ++ lit "Return code: "
    ++ str_of_int returncode ++ [nl] in
  error_msg ++ lit "Files in temp directory: " ++ str_of_list files_created
  ++ [nl].

Definition input_file_of (temp_dir : str) : str :=
  path_join temp_dir (lit "calculation.inp").

Definition output_file_of (temp_dir : str) : str :=
  path_join temp_dir (lit "calculation.out").

(** The command line handed to the shell and the other arguments of
    [subprocess.run]. *)
Definition launch_args (temp_dir : str) : run_args :=
  {| args := lit "orca " ++ input_file_of temp_dir ++ lit " >& "
             ++ output_file_of temp_dir;
     shell := true;
     cwd := temp_dir;
     timeout := 300 |}.

Definition run_orca_calculation (input_content temp_dir : str)
  : prog (bool * str * str) :=
  let input_file := input_file_of temp_dir in
  let output_file := output_file_of temp_dir in
  _ <- perform (WriteFile input_file input_content) ;;
  try_catch
    (returncode <- perform (SubprocessRun (launch_args temp_dir)) ;;
     present <- perform (PathExists output_file) ;;
     if negb present then
       files_created <- perform (ListDir temp_dir) ;;
       Ret (false, output_file, missing_output_msg returncode files_created)
     else
       output_content <- perform (ReadFile output_file) ;;
       if negb (str_in SUCCESS_MARKER output_content)
       then Ret (false, output_file, ABNORMAL_MSG)
       else Ret (true, output_file, output_content))
    (fun e =>
       match e with
       | TimeoutExpired _ => Ret (false, output_file, TIMEOUT_MSG)
       | OtherException msg => Ret (false, output_file, msg)
       end).

(** ** [parse_orca_output] *)

Definition ERROR_PREFIX : str := lit "Error: ".

Definition parse_orca_output (output_file : str) : prog (str * str * str) :=
  try_catch
    (content <- perform (ReadFile output_file) ;;
     Ret (parse_energy content, parse_geometry content, content))
    (fun e =>
       Ret (ERROR_PREFIX ++ str_of_exn e, ERROR_PREFIX ++ str_of_exn e,
            str_of_exn e)).

(** ** A scripted environment

    An environment that answers each kind of call from a fixed script; it
    gives concrete runs of the two programs. *)

Record script : Type := {
  on_write : outcome unit;
  on_run : outcome Z;
  on_exists : outcome bool;
  on_listdir : outcome (list str);
  on_read : outcome str
}.

Definition scripted : env script :=
  fun B c =>
    match c in call T return script -> outcome T * script with
    | WriteFile _ _ => fun w => (on_write w, w)
    | SubprocessRun _ => fun w => (on_run w, w)
    | PathExists _ => fun w => (on_exists w, w)
    | ListDir _ => fun w => (on_listdir w, w)
    | ReadFile _ => fun w => (on_read w, w)
    end.

(** The launches among the calls of a run. *)
Definition launches (tr : list event) : list run_args :=
  flat_map (fun e => match launch_of e with Some a => [a] | None => [] end) tr.


(** Concrete scripts and inputs for the runs used as examples. *)
Definition sample_input : str :=
  generate_orca_input (lit "O 0.0 0.0 0.0") default_method default_basis
                      default_calculation_type.

Definition sample_dir : str := lit "/tmp/job".

Definition script_of (wr : outcome unit) (rn : outcome Z) (ex : outcome bool)
           (ld : outcome (list str)) (rd : outcome str) : script :=
  {| on_write := wr; on_run := rn; on_exists := ex; on_listdir := ld;
     on_read := rd |}.

(** Every call a program can make satisfies [P]. *)
Fixpoint all_calls {A : Type} (P : event -> Prop) (p : prog A) : Prop :=
  match p with
  | Ret _ => True
  | Throw _ => True
  | Do c k => P (Called c) /\ forall o, all_calls P (k o)
  end.

(** ** The rule for keeping a line of the block *)

(** The test the loop applies to a line: after [strip] it is not empty, it
    does not start with a dash, it has at least four fields, and [float]
    accepts its second, third and fourth field. *)
Definition keeps (line0 : str) : bool :=
  let line := strip line0 in
  let parts := split_ws line in
  negb (length line =? 0) && negb (startswith (lit "-") line)
  && (4 <=? length parts)
  && (float_ok (nth 1 parts []) && float_ok (nth 2 parts [])
      && float_ok (nth 3 parts [])).

(** The line that is stored for a kept line. *)
Definition format_line (line0 : str) : str :=
  format_atom (split_ws (strip line0)).

(** The rule as the specification words it: at least four fields, and the
    last three fields are numbers. *)
Definition spec_keeps (line : str) : bool :=
  let parts := split_ws line in
  (4 <=? length parts)
  && forallb float_ok (skipn (length parts - 3) parts).

(** ** Reading the matcher

    The inputs left by a greedy repetition of one character class, the
    longest run first. *)
Fixpoint greedy_tails (p : ascii -> bool) (s : str) : list str :=
  match s with
  | c :: t => if p c then greedy_tails p t ++ [s] else [s]
  | [] => [[]]
  end.

(** The first match of a pattern at the start of the input. *)
Definition first_match (r : regex) (st : mstate) : option mstate :=
  hd_error (m r st).

(** A character that cannot continue a number. *)
Definition ends_number (post : str) : bool :=
  match post with
  | [] => true
  | c :: _ => negb (is_digit c || is_dot c || is_e c)
  end.

(** The shape of a number in the report: an optional sign [sg], digits
    [ip], an optional fraction [fp] (a dot and digits; without it [ip] is
    not empty) and an optional exponent [ex]. *)
Definition numeral (sg ip fp ex : str) : bool :=
  match sg with [] => true | [c] => is_sign c | _ => false end
  && forallb is_digit ip
  && match fp with
     | [] => negb (length ip =? 0)
     | c :: fd => is_dot c && negb (length fd =? 0) && forallb is_digit fd
     end
  && exponent_ok ex.

(** A pattern without a capturing group. *)
Fixpoint groupless (r : regex) : bool :=
  match r with
  | Eps => true
  | Chr _ => true
  | Seq r1 r2 => groupless r1 && groupless r2
  | Alt r1 r2 => groupless r1 && groupless r2
  | Star _ r' => groupless r'
  | Group _ => false
  | Ahead r' => groupless r'
  end.

(** ** Sections of Cartesian coordinates

    What ends a block, read off the look-ahead [(?=-{3,}|\n\s*\n)]: at
    the start of a line, three dashes, or an empty line followed by white
    space up to a further newline. *)
Definition terminator_at (s : str) : bool :=
  startswith (lit "---") s
  || match s with
     | c :: t => is_nl c && existsb is_nl (takewhile is_space t)
     | [] => false
     end.

(** The text from the start of each line of the block on; [tail] is the
    text after the block. *)
Fixpoint line_starts (ls : list str) (tail : str) : list str :=
  match ls with
  | [] => []
  | _ :: ls' => (unlines ls ++ tail) :: line_starts ls' tail
  end.

(** No line of the block starts a terminator. *)
Definition block_open (ls : list str) (tail : str) : bool :=
  forallb (fun s => negb (terminator_at s)) (line_starts ls tail).

(** A line with a character that is not white space. *)
Definition visible (l : str) : bool :=
  existsb (fun c => negb (is_space c)) l.

(** A section: the text [sec_gap] before its header, the number of dashes
    of the rule under the header, and the lines of its block. *)
Record section : Type := {
  sec_gap : str;
  sec_rule : nat;
  sec_lines : list str
}.

(** The header line, the rule and the block. *)
Definition section_text (n : nat) (ls : list str) : str :=
  COORD_HEADER ++ [nl] ++ repeat "-"%char n ++ [nl] ++ unlines ls.

(** A report: the sections, each after its gap, and the text [final]
    after the last block. *)
Fixpoint render (secs : list section) (final : str) : str :=
  match secs with
  | [] => final
  | s :: rest =>
      sec_gap s ++ section_text (sec_rule s) (sec_lines s)
      ++ render rest final
  end.

(** A report the pattern reads section by section: in each gap the header
    does not occur; every rule has a dash; the lines of a block hold no
    newline, the first one is not blank, none starts a terminator, and a
    terminator follows the block; the header does not occur in [final]. *)
Fixpoint sections_ok (secs : list section) (final : str) : bool :=
  match secs with
  | [] => negb (str_in COORD_HEADER final)
  | s :: rest =>
      let tail := render rest final in
      match str_find COORD_HEADER (render secs final) with
      | Some k => k =? length (sec_gap s)
      | None => false
      end
      && (1 <=? sec_rule s)
      && forallb no_newline (sec_lines s)
      && match sec_lines s with l :: _ => visible l | [] => false end
      && block_open (sec_lines s) tail
      && terminator_at tail
      && sections_ok rest final
  end.

(** The blocks of the sections, in order. *)
Definition blocks (secs : list section) : list str :=
  map (fun s => unlines (sec_lines s)) secs.

(** A report of two sections whose second block is followed by one empty
    line and by text that is neither a rule nor blank. *)
Definition open_ended_report : str :=
  render [ {| sec_gap := lit "---" ++ [nl]; sec_rule := 33;
              sec_lines := [lit "  O   0.000000   0.000000   0.000000"; []] |};
           {| sec_gap := lit "---" ++ [nl]; sec_rule := 33;
              sec_lines := [lit "  H   1.000000   1.000000   1.000000"; []] |} ]
         (lit "Total run time: 5 sec" ++ [nl]).

(** A report of two sections as the engine writes them. *)
Definition sample_sections : list section :=
  [ {| sec_gap := lit "---------------------------------" ++ [nl];
       sec_rule := 33;
       sec_lines := [lit "  O      0.000000    0.000000    0.000000";
                     lit "  H      0.960000    0.000000    0.000000";
                     lit "  H     -0.240000    0.930000    0.000000"; []] |};
    {| sec_gap := lit "----------------------------" ++ [nl]
                  ++ lit "CARTESIAN COORDINATES (A.U.)" ++ [nl]
                  ++ lit "FINAL SINGLE POINT ENERGY       -76.321" ++ [nl]
                  ++ lit "---------------------------------" ++ [nl];
       sec_rule := 33;
       sec_lines := [lit "  O      0.000000    0.000000    0.117790";
                     lit "  H      0.000000    0.755453   -0.471161";
                     lit "  H      0.000000   -0.755453   -0.471161"; []] |} ].

Definition sample_final : str :=
  lit "----------------------------" ++ [nl]
  ++ lit "CARTESIAN COORDINATES (A.U.)" ++ [nl]
  ++ lit "****ORCA TERMINATED NORMALLY****" ++ [nl].

(** ** [check_orca_installation]

    The function makes one call, [subprocess.run(['which', 'orca'],
    capture_output=True, text=True, timeout=10)], and is a function of its
    answer: a completed process with its [returncode] and [stdout], or an
    exception, told apart as the [except] clause does. *)

Inductive which_error : Type :=
| WhichTimeoutExpired : str -> which_error
| WhichFileNotFoundError : str -> which_error
| WhichOtherError : str -> which_error.

Inductive which_answer : Type :=
| WhichCompleted : Z -> str -> which_answer
| WhichRaised : which_error -> which_answer.

Definition INSTALLATION_FOUND : str := lit "ORCA installation found".

Definition NOT_INSTALLED : str :=
  lit "ORCA is not installed or not accessible via command line".

Definition check_orca_installation (answer : which_answer)
  : outcome (bool * str) :=
  match answer with
  | WhichCompleted returncode stdout =>
      if (returncode =? 0)%Z && negb (length (strip stdout) =? 0)
      then Ok (true, INSTALLATION_FOUND)
      else Ok (false, NOT_INSTALLED)
  | WhichRaised (WhichTimeoutExpired _) => Ok (false, NOT_INSTALLED)
  | WhichRaised (WhichFileNotFoundError _) => Ok (false, NOT_INSTALLED)
  | WhichRaised (WhichOtherError msg) => Raise (OtherException msg)
  end.

(** ** The button of [main]

    The number of atoms shown under the text area. *)
Definition atom_count (geometry_input : str) : nat :=
  length (filter (fun line => negb (length (strip line) =? 0))
                 (split_nl (strip geometry_input))).

(** What the page shows after a click on the button: the request to enter
    a geometry, the failure of the calculation with its message, or the
    results.  The widgets themselves are not modelled; the working
    directory, made by [tempfile.TemporaryDirectory], is a parameter. *)
Inductive shown : Type :=
| PleaseEnterGeometry : shown
| CalculationFailed : str -> shown
| Results : str -> str -> str -> shown.

Definition run_button (geometry_input temp_dir : str) : prog shown :=
  if length (strip geometry_input) =? 0 then Ret PleaseEnterGeometry
  else
    let input_content :=
      generate_orca_input geometry_input default_method default_basis
                          default_calculation_type in
    r <- run_orca_calculation input_content temp_dir ;;
    match r with
    | (success, output_file, message) =>
        if negb success then Ret (CalculationFailed message)
        else
          t <- parse_orca_output output_file ;;
          match t with
          | (energy, optimized_geometry, full_output) =>
              Ret (Results energy optimized_geometry full_output)
          end
    end.

(** The files written among the calls of a run. *)
Definition write_of (e : event) : option (str * str) :=
  match e with
  | Called (WriteFile path content) => Some (path, content)
  | _ => None
  end.

Definition writes (tr : list event) : list (str * str) :=
  flat_map (fun e => match write_of e with Some x => [x] | None => [] end) tr.

(** [s.rstrip()] *)
Definition rstrip (s : str) : str := rev (dropwhile is_space (rev s)).

(** The class of the characters that are not white space. *)
Definition not_space (c : ascii) : bool := negb (is_space c).

(** A text that starts and ends with a character that is not white
    space. *)
Definition trimmed (s : str) : bool :=
  match s with
  | [] => false
  | c :: _ => negb (is_space c) && negb (is_space (last s c))
  end.

(** A line of the geometry as the parser writes it: exactly four fields,
    the first not starting with a dash, the other three accepted by
    [float]; at least 44 characters; no newline; nothing to strip. *)
Definition atom_line_ok (line : str) : bool :=
  match split_ws line with
  | [e; x; y; z] =>
      negb (startswith (lit "-") e)
      && (float_ok x && float_ok y && float_ok z)
  | _ => false
  end
  && (44 <=? length line) && no_newline line && trimmed line.

(** The visibility of the first line of a text and the number of visible
    lines after it. *)
Definition line_census (s : str) : bool * nat :=
  match split_nl s with
  | l :: ls => (visible l, length (filter visible ls))
  | [] => (false, 0)
  end.

(** The calls [run_orca_calculation input_content temp_dir] may make. *)
Definition run_call_ok (input_content temp_dir : str) (e : event) : Prop :=
  match e with
  | Called (WriteFile path content) =>
      path = input_file_of temp_dir /\ content = input_content
  | Called (SubprocessRun a) => a = launch_args temp_dir
  | Called (PathExists path) => path = output_file_of temp_dir
  | Called (ListDir path) => path = temp_dir
  | Called (ReadFile path) => path = output_file_of temp_dir
  end.

(** A program that makes at most [n] calls. *)
Fixpoint calls_at_most {A : Type} (n : nat) (p : prog A) : Prop :=
  match p with
  | Ret _ => True
  | Throw _ => True
  | Do c k =>
      match n with
      | 0 => False
      | S n' => forall o, calls_at_most n' (k o)
      end
  end.

(** The document the button writes for a geometry text. *)
Definition button_input (geometry_input : str) : str :=
  generate_orca_input geometry_input default_method default_basis
                      default_calculation_type.

(** A report with an energy, two sections and the success marker. *)
Definition sample_report : str := render sample_sections sample_final.

(** ** What a pattern can consume

    The words a pattern matches, whatever the order in which the matcher
    tries them; a look-ahead consumes nothing. *)
Inductive lang : regex -> str -> Prop :=
| lang_Eps : lang Eps []
| lang_Chr : forall (p : ascii -> bool) (c : ascii),
    p c = true -> lang (Chr p) [c]
| lang_Seq : forall (r1 r2 : regex) (w1 w2 : str),
    lang r1 w1 -> lang r2 w2 -> lang (Seq r1 r2) (w1 ++ w2)
| lang_Alt_l : forall (r1 r2 : regex) (w : str),
    lang r1 w -> lang (Alt r1 r2) w
| lang_Alt_r : forall (r1 r2 : regex) (w : str),
    lang r2 w -> lang (Alt r1 r2) w
| lang_Star_nil : forall (g : bool) (r : regex), lang (Star g r) []
| lang_Star_cons : forall (g : bool) (r : regex) (w1 w2 : str),
    lang r w1 -> lang (Star g r) w2 -> lang (Star g r) (w1 ++ w2)
| lang_Group : forall (r : regex) (w : str), lang r w -> lang (Group r) w
| lang_Ahead : forall r : regex, lang (Ahead r) [].

(** A character of a number. *)
Definition number_char (c : ascii) : bool :=
  is_sign c || is_digit c || is_dot c || is_e c.

(** A pattern without a look-ahead. *)
Fixpoint ahead_free (r : regex) : bool :=
  match r with
  | Eps => true
  | Chr _ => true
  | Seq r1 r2 => ahead_free r1 && ahead_free r2
  | Alt r1 r2 => ahead_free r1 && ahead_free r2
  | Star _ r' => ahead_free r'
  | Group r' => ahead_free r'
  | Ahead _ => false
  end.

(** ** Where the energy is read

    The start of a number without its sign: a digit, or a dot and a
    digit. *)
Definition starts_unsigned (s : str) : bool :=
  match s with
  | c :: t =>
      is_digit c
      || (is_dot c && match t with d :: _ => is_digit d | [] => false end)
  | [] => false
  end.

(** The start of a number: an optional sign, then the start of a number
    without sign. *)
Definition starts_number (s : str) : bool :=
  match s with
  | c :: t => if is_sign c then starts_unsigned t else starts_unsigned s
  | [] => false
  end.

(** The text [s] starts with the label, at least one white-space character
    comes next, and after the white space a number starts. *)
Definition energy_at (s : str) : bool :=
  startswith ENERGY_LABEL s
  && (let y := skipn (length ENERGY_LABEL) s in
      match y with c :: _ => is_space c | [] => false end
      && starts_number (dropwhile is_space y)).

(** The first position of the text at which [energy_at] holds. *)
Fixpoint energy_pos (s : str) : option nat :=
  if energy_at s then Some 0
  else match s with
       | [] => None
       | _ :: t => option_map S (energy_pos t)
       end.
(** ** Basic facts about strings *)

Lemma startswith_app (p s : str) : startswith p (p ++ s) = true.
Proof.
  induction p as [|a p IH]; simpl; [reflexivity|].
  now rewrite Ascii.eqb_refl, IH.
Qed.

Lemma str_find_eq (p s : str) :
  str_find p s =
  if startswith p s then Some 0
  else match s with
       | [] => None
       | _ :: t => option_map S (str_find p t)
       end.
Proof. destruct s; reflexivity. Qed.

Lemma str_find_app (p a b : str) : str_find p (a ++ p ++ b) <> None.
Proof.
  induction a as [|c a IH]; rewrite str_find_eq.
  - simpl. now rewrite startswith_app.
  - destruct (startswith p ((c :: a) ++ p ++ b)); [discriminate|].
    simpl. destruct (str_find p (a ++ p ++ b)); [discriminate | contradiction].
Qed.

Lemma str_in_app (p a b : str) : str_in p (a ++ p ++ b) = true.
Proof.
  unfold str_in. pose proof (str_find_app p a b) as H.
  destruct (str_find p (a ++ p ++ b)); [reflexivity | contradiction].
Qed.

Lemma split_nl_line (l s : str) :
  existsb is_nl l = false -> split_nl (l ++ nl :: s) = l :: split_nl s.
Proof.
  induction l as [|c l IH]; intros H; simpl in *.
  - reflexivity.
  - apply orb_false_iff in H as [Hc Hl]. rewrite Hc, (IH Hl). reflexivity.
Qed.

Lemma split_nl_unlines (ls : list str) (s : str) :
  forallb no_newline ls = true ->
  split_nl (unlines ls ++ s) = ls ++ split_nl s.
Proof.
  induction ls as [|l ls IH]; intros H; simpl in *; [reflexivity|].
  apply andb_true_iff in H as [Hl Hls]. apply negb_true_iff in Hl.
  rewrite <- !app_assoc. simpl.
  rewrite (split_nl_line _ _ Hl). f_equal. now apply IH.
Qed.

Lemma unlines_app (a b : list str) : unlines (a ++ b) = unlines a ++ unlines b.
Proof. apply flat_map_app. Qed.

Lemma join_nl_unlines (ls : list str) :
  ls <> [] -> join [nl] ls ++ [nl] = unlines ls.
Proof.
  induction ls as [|l ls IH]; intros H; [contradiction|].
  destruct ls as [|l' ls].
  - simpl. now rewrite app_nil_r.
  - change (join [nl] (l :: l' :: ls)) with (l ++ [nl] ++ join [nl] (l' :: ls)).
    change (unlines (l :: l' :: ls)) with ((l ++ [nl]) ++ unlines (l' :: ls)).
    rewrite <- IH by discriminate. now rewrite <- !app_assoc.
Qed.

(** ** The input builder *)

(** C5.  For a geometry of N >= 1 atom lines joined by newlines, the
    document is the directive line, an empty line, the opener
    [* xyz 0 1], the N atom lines in their order and unchanged, and the
    closing [*] line; nothing else lies between the opener and the closing
    line.  ([split_nl] yields a last empty piece for the final newline.) *)
Theorem generate_orca_input_lines :
  forall (atoms : list str) (method basis calculation_type : str),
    atoms <> [] ->
    forallb no_newline (method :: basis :: calculation_type :: atoms) = true ->
    generate_orca_input (join [nl] atoms) method basis calculation_type
    = unlines ([directive_line method basis calculation_type; [];
                lit "* xyz 0 1"] ++ atoms ++ [lit "*"])
    /\ split_nl (generate_orca_input (join [nl] atoms) method basis
                                     calculation_type)
       = [directive_line method basis calculation_type; []; lit "* xyz 0 1"]
           ++ atoms ++ [lit "*"; []].
Proof.
  intros atoms method basis ct Hne Hnl.
  assert (E : generate_orca_input (join [nl] atoms) method basis ct
              = unlines ([directive_line method basis ct; [];
                          lit "* xyz 0 1"] ++ atoms ++ [lit "*"])).
  { unfold generate_orca_input, directive_line.
    rewrite !unlines_app, <- (join_nl_unlines atoms Hne).
    unfold unlines. simpl.
    repeat (rewrite <- app_assoc; simpl). reflexivity. }
  split; [exact E|].
  rewrite E.
  rewrite <- (app_nil_r (unlines _)).
  rewrite split_nl_unlines.
  - simpl. rewrite <- !app_assoc. reflexivity.
  - simpl in Hnl. apply andb_true_iff in Hnl as [Hm Hnl].
    apply andb_true_iff in Hnl as [Hb Hnl].
    apply andb_true_iff in Hnl as [Hc Ha].
    rewrite !forallb_app, Ha.
    unfold no_newline in Hm, Hb, Hc. apply negb_true_iff in Hm, Hb, Hc.
    simpl. unfold no_newline at 1, directive_line.
    rewrite !existsb_app, Hm, Hb, Hc. reflexivity.
Qed.

Lemma generate_orca_input_lines_witness :
  split_nl (generate_orca_input
              (join [nl] [lit "O 0.0 0.0 0.0"; lit "H 0.96 0.0 0.0";
                          lit "H -0.24 0.93 0.0"])
              default_method default_basis default_calculation_type)
  = [lit "! B3LYP def2-SVP Opt"; []; lit "* xyz 0 1"; lit "O 0.0 0.0 0.0";
     lit "H 0.96 0.0 0.0"; lit "H -0.24 0.93 0.0"; lit "*"; []].
Proof.
  refine (proj2 (generate_orca_input_lines
                   [lit "O 0.0 0.0 0.0"; lit "H 0.96 0.0 0.0";
                    lit "H -0.24 0.93 0.0"]
                   default_method default_basis default_calculation_type
                   _ _)); [intro H; discriminate H | reflexivity].
Defined.

(** ** The process runner *)

Section Exec.

Context {W : Type} (os : env W).

Lemma result_Do {A B : Type} (c : call B) (k : outcome B -> prog A)
      (w w1 : W) (o : outcome B) :
  os _ c w = (o, w1) ->
  result_of (exec os (Do c k) w) = result_of (exec os (k o) w1).
Proof.
  intros H. unfold result_of. simpl. rewrite H.
  destruct (exec os (k o) w1) as [[r w2] tr]. reflexivity.
Qed.

Lemma trace_Do {A B : Type} (c : call B) (k : outcome B -> prog A)
      (w w1 : W) (o : outcome B) :
  os _ c w = (o, w1) ->
  trace_of (exec os (Do c k) w) = Called c :: trace_of (exec os (k o) w1).
Proof.
  intros H. unfold trace_of. simpl. rewrite H.
  destruct (exec os (k o) w1) as [[r w2] tr]. reflexivity.
Qed.

(** A handler that always returns makes the guarded program return. *)
Lemma try_catch_returns {A : Type} (h : exn -> prog A) :
  (forall e, exists a, h e = Ret a) ->
  forall (p : prog A) (w : W),
  exists a, result_of (exec os (try_catch p h) w) = Ok a.
Proof.
  intros Hh p. induction p as [a|e|B c k IH]; intros w; cbn [try_catch].
  - exists a. reflexivity.
  - destruct (Hh e) as [a Ha]. rewrite Ha. exists a. reflexivity.
  - destruct (os _ c w) as [o w1] eqn:Hc.
    destruct (IH o w1) as [a Ha]. exists a.
    rewrite (result_Do c _ w w1 o Hc). exact Ha.
Qed.

End Exec.

Lemma missing_output_msg_shape (rc : Z) (files : list str) :
  missing_output_msg rc files
  = (lit "ORCA did not create output file." ++ [nl] ++ lit "Return code: ")
      ++ str_of_int rc
      ++ ([nl] ++ lit "Files in temp directory: ")
      ++ str_of_list files ++ [nl].
Proof.
  unfold missing_output_msg. repeat (rewrite <- app_assoc; simpl). reflexivity.
Qed.

(** A write that raises ends the run at once. *)
Lemma write_raises {W : Type} (os : env W) (w w1 : W)
      (input_content temp_dir : str) (e : exn) :
  os _ (WriteFile (input_file_of temp_dir) input_content) w = (Raise e, w1) ->
  exec os (run_orca_calculation input_content temp_dir) w
  = (Raise e, w1, [Called (WriteFile (input_file_of temp_dir) input_content)]).
Proof.
  intros Hw. unfold run_orca_calculation, perform. simpl.
  rewrite Hw. reflexivity.
Qed.



(** The run after a successful write and a launch that returned, by the
    answers of the environment. *)
Lemma run_after_launch {W : Type} (os : env W) (w w1 w2 : W)
      (input_content temp_dir : str) (u : unit) (rc : Z) :
  os _ (WriteFile (input_file_of temp_dir) input_content) w = (Ok u, w1) ->
  os _ (SubprocessRun (launch_args temp_dir)) w1 = (Ok rc, w2) ->
  result_of (exec os (run_orca_calculation input_content temp_dir) w)
  = match os _ (PathExists (output_file_of temp_dir)) w2 with
    | (Ok false, w3) =>
        match os _ (ListDir temp_dir) w3 with
        | (Ok files, _) =>
            Ok (false, output_file_of temp_dir, missing_output_msg rc files)
        | (Raise (TimeoutExpired _), _) =>
            Ok (false, output_file_of temp_dir, TIMEOUT_MSG)
        | (Raise (OtherException msg), _) =>
            Ok (false, output_file_of temp_dir, msg)
        end
    | (Ok true, w3) =>
        match os _ (ReadFile (output_file_of temp_dir)) w3 with
        | (Ok content, _) =>
            if str_in SUCCESS_MARKER content
            then Ok (true, output_file_of temp_dir, content)
            else Ok (false, output_file_of temp_dir, ABNORMAL_MSG)
        | (Raise (TimeoutExpired _), _) =>
            Ok (false, output_file_of temp_dir, TIMEOUT_MSG)
        | (Raise (OtherException msg), _) =>
            Ok (false, output_file_of temp_dir, msg)
        end
    | (Raise (TimeoutExpired _), _) =>
        Ok (false, output_file_of temp_dir, TIMEOUT_MSG)
    | (Raise (OtherException msg), _) =>
        Ok (false, output_file_of temp_dir, msg)
    end.
Proof.
  intros Hw Hr. unfold run_orca_calculation, perform. cbn [bind].
  rewrite (result_Do os _ _ w w1 _ Hw). cbn [bind try_catch].
  rewrite (result_Do os _ _ w1 w2 _ Hr). cbn [bind try_catch].
  destruct (os _ (PathExists (output_file_of temp_dir)) w2) as [[[|]|[m|m]] w3]
    eqn:He; rewrite (result_Do os _ _ w2 w3 _ He); cbn [bind try_catch negb];
    try reflexivity.
  - destruct (os _ (ReadFile (output_file_of temp_dir)) w3) as [[c|[m|m]] w4]
      eqn:Hd; rewrite (result_Do os _ _ w3 w4 _ Hd); cbn [bind try_catch];
      try reflexivity.
    destruct (str_in SUCCESS_MARKER c); reflexivity.
  - destruct (os _ (ListDir temp_dir) w3) as [[l|[m|m]] w4]
      eqn:Hd; rewrite (result_Do os _ _ w3 w4 _ Hd); cbn [bind try_catch];
      reflexivity.
Qed.

(** C2.  When the output file exists and its text lacks the success
    marker, the run is reported as failed with the diagnostic of an
    abnormal termination, whatever the exit code of the process (0
    included) and whatever the text; and no run is ever reported as
    successful with a text that lacks the marker. *)
Theorem missing_marker_fails :
  forall (W : Type) (os : env W) (w : W) (input_content temp_dir : str),
    (forall u rc content w1 w2 w3 w4,
        os _ (WriteFile (input_file_of temp_dir) input_content) w = (Ok u, w1) ->
        os _ (SubprocessRun (launch_args temp_dir)) w1 = (Ok rc, w2) ->
        os _ (PathExists (output_file_of temp_dir)) w2 = (Ok true, w3) ->
        os _ (ReadFile (output_file_of temp_dir)) w3 = (Ok content, w4) ->
        str_in SUCCESS_MARKER content = false ->
        result_of (exec os (run_orca_calculation input_content temp_dir) w)
        = Ok (false, output_file_of temp_dir, ABNORMAL_MSG))
    /\ (forall f text,
           result_of (exec os (run_orca_calculation input_content temp_dir) w)
           = Ok (true, f, text) ->
           str_in SUCCESS_MARKER text = true).
Proof.
  intros W os w input_content temp_dir. split.
  - intros u rc content w1 w2 w3 w4 Hw Hr He Hd Hm.
    rewrite (run_after_launch os w w1 w2 _ _ u rc Hw Hr), He, Hd, Hm.
    reflexivity.
  - intros f text H.
    destruct (os _ (WriteFile (input_file_of temp_dir) input_content) w)
      as [[u|e] w1] eqn:Hw.
    + destruct (os _ (SubprocessRun (launch_args temp_dir)) w1)
        as [[rc|e] w2] eqn:Hr.
      * rewrite (run_after_launch os w w1 w2 _ _ u rc Hw Hr) in H.
        destruct (os _ (PathExists (output_file_of temp_dir)) w2)
          as [[[|]|[m|m]] w3]; try discriminate.
        -- destruct (os _ (ReadFile (output_file_of temp_dir)) w3)
             as [[c|[m|m]] w4]; try discriminate.
           destruct (str_in SUCCESS_MARKER c) eqn:Hc; [|discriminate].
           injection H as _ Ht. now subst text.
        -- destruct (os _ (ListDir temp_dir) w3) as [[l|[m|m]] w4];
             discriminate.
      * unfold run_orca_calculation, perform in H. cbn [bind] in H.
        rewrite (result_Do os _ _ w w1 _ Hw) in H. cbn [bind try_catch] in H.
        rewrite (result_Do os _ _ w1 w2 _ Hr) in H.
        destruct e; discriminate.
    + unfold result_of in H.
      rewrite (write_raises os w w1 input_content temp_dir e Hw) in H.
      discriminate.
Qed.

Lemma missing_marker_fails_witness :
  result_of
    (exec scripted (run_orca_calculation sample_input sample_dir)
          (script_of (Ok tt) (Ok 0%Z) (Ok true) (Ok [])
                     (Ok (lit "Error: SCF did not converge"))))
  = Ok (false, output_file_of sample_dir, ABNORMAL_MSG).
Proof.
  eapply (proj1 (missing_marker_fails script scripted _ sample_input
                                      sample_dir));
    reflexivity.
Defined.

(** The trace of a run whose launch raised: the write and the launch. *)
Lemma exec_launch_raises {W : Type} (os : env W) (w w1 w2 : W)
      (input_content temp_dir : str) (u : unit) (e : exn) :
  os _ (WriteFile (input_file_of temp_dir) input_content) w = (Ok u, w1) ->
  os _ (SubprocessRun (launch_args temp_dir)) w1 = (Raise e, w2) ->
  exec os (run_orca_calculation input_content temp_dir) w
  = (Ok (false, output_file_of temp_dir,
         match e with
         | TimeoutExpired _ => TIMEOUT_MSG
         | OtherException msg => msg
         end),
     w2,
     [Called (WriteFile (input_file_of temp_dir) input_content);
      Called (SubprocessRun (launch_args temp_dir))]).
Proof.
  intros Hw Hr. unfold run_orca_calculation, perform. simpl.
  rewrite Hw. simpl. rewrite Hr. destruct e; reflexivity.
Qed.

(** C6 as worded does not hold: the process has returned with exit code
    127, the output file does not exist, and listing the directory raises;
    the diagnostic is the message of that exception, without the exit
    code and without a listing. *)
Lemma listing_failure_hides_exit_code :
  result_of
    (exec scripted (run_orca_calculation sample_input sample_dir)
          (script_of (Ok tt) (Ok 127%Z) (Ok false)
                     (Raise (OtherException
                               (lit "[Errno 13] Permission denied: '/tmp/job'")))
                     (Ok [])))
  = Ok (false, output_file_of sample_dir,
        lit "[Errno 13] Permission denied: '/tmp/job'")
  /\ str_in (str_of_int 127)
            (lit "[Errno 13] Permission denied: '/tmp/job'") = false
  /\ str_in (lit "Files in temp directory")
            (lit "[Errno 13] Permission denied: '/tmp/job'") = false.
Proof. repeat split; reflexivity. Qed.

(** C6 (as the code has it).  When the process has returned and the
    output file does not exist, the run is reported as failed.  When the
    directory can be listed, the diagnostic is the one of a missing
    output file: it contains the exit code and the listing of the
    directory and differs from the diagnostics of a timeout and of an
    abnormal termination.  When listing the directory raises, the
    diagnostic is the one of an exception: the message of the exception,
    or the timeout diagnostic for [TimeoutExpired]. *)
Theorem missing_output_reported :
  forall (W : Type) (os : env W) (w w1 w2 w3 : W)
         (input_content temp_dir : str) (u : unit) (rc : Z),
    os _ (WriteFile (input_file_of temp_dir) input_content) w = (Ok u, w1) ->
    os _ (SubprocessRun (launch_args temp_dir)) w1 = (Ok rc, w2) ->
    os _ (PathExists (output_file_of temp_dir)) w2 = (Ok false, w3) ->
    (exists msg,
        result_of (exec os (run_orca_calculation input_content temp_dir) w)
        = Ok (false, output_file_of temp_dir, msg))
    /\ (forall files w4,
           os _ (ListDir temp_dir) w3 = (Ok files, w4) ->
           result_of (exec os (run_orca_calculation input_content temp_dir) w)
           = Ok (false, output_file_of temp_dir,
                 missing_output_msg rc files)
           /\ str_in (str_of_int rc) (missing_output_msg rc files) = true
           /\ str_in (str_of_list files) (missing_output_msg rc files) = true
           /\ missing_output_msg rc files <> TIMEOUT_MSG
           /\ missing_output_msg rc files <> ABNORMAL_MSG)
    /\ (forall e w4,
           os _ (ListDir temp_dir) w3 = (Raise e, w4) ->
           result_of (exec os (run_orca_calculation input_content temp_dir) w)
           = Ok (false, output_file_of temp_dir,
                 match e with
                 | TimeoutExpired _ => TIMEOUT_MSG
                 | OtherException msg => msg
                 end)).
Proof.
  intros W os w w1 w2 w3 input_content temp_dir u rc Hw Hr He.
  rewrite (run_after_launch os w w1 w2 _ _ u rc Hw Hr), He.
  split; [|split].
  - destruct (os _ (ListDir temp_dir) w3) as [[l|[m|m]] w4];
      eexists; reflexivity.
  - intros files w4 Hl. rewrite Hl. split; [reflexivity|].
    split; [|split; [|split]].
    + rewrite missing_output_msg_shape. apply str_in_app.
    + rewrite missing_output_msg_shape.
      rewrite (app_assoc _ (str_of_int rc)), (app_assoc _ (_ ++ _)).
      apply str_in_app.
    + intros H. apply (f_equal (firstn 1)) in H. discriminate H.
    + intros H. apply (f_equal (firstn 16)) in H. discriminate H.
  - intros e w4 Hl. rewrite Hl. destruct e; reflexivity.
Qed.

Lemma missing_output_reported_witness :
  result_of
    (exec scripted (run_orca_calculation sample_input sample_dir)
          (script_of (Ok tt) (Ok 127%Z) (Ok false)
                     (Ok [lit "calculation.inp"]) (Ok [])))
  = Ok (false, output_file_of sample_dir,
        lit "ORCA did not create output file." ++ [nl]
        ++ lit "Return code: 127" ++ [nl]
        ++ lit "Files in temp directory: ['calculation.inp']" ++ [nl]).
Proof.
  refine (proj1 (proj1 (proj2 (missing_output_reported
                                 script scripted _ _ _ _ sample_input
                                 sample_dir tt 127%Z _ _ _))
                       [lit "calculation.inp"] _ _));
    reflexivity.
Defined.

(** C7.  The launch is given a timeout of 300 seconds; when it raises
    [TimeoutExpired] the run is reported as failed with a diagnostic that
    contains [timed out], and after the launch nothing is called: the
    output file is neither looked for nor read. *)
Theorem timeout_classified :
  forall (W : Type) (os : env W) (w w1 w2 : W)
         (input_content temp_dir : str) (u : unit) (m : str),
    os _ (WriteFile (input_file_of temp_dir) input_content) w = (Ok u, w1) ->
    os _ (SubprocessRun (launch_args temp_dir)) w1
    = (Raise (TimeoutExpired m), w2) ->
    timeout (launch_args temp_dir) = 300%Z
    /\ exec os (run_orca_calculation input_content temp_dir) w
       = (Ok (false, output_file_of temp_dir, TIMEOUT_MSG), w2,
          [Called (WriteFile (input_file_of temp_dir) input_content);
           Called (SubprocessRun (launch_args temp_dir))])
    /\ str_in (lit "timed out") TIMEOUT_MSG = true
    /\ existsb is_read
         (trace_of (exec os (run_orca_calculation input_content temp_dir) w))
       = false.
Proof.
  intros W os w w1 w2 input_content temp_dir u m Hw Hr.
  pose proof (exec_launch_raises os w w1 w2 _ _ u _ Hw Hr) as E.
  split; [reflexivity|]. split; [exact E|]. split; [reflexivity|].
  rewrite E. reflexivity.
Qed.

Lemma timeout_classified_witness :
  result_of
    (exec scripted (run_orca_calculation sample_input sample_dir)
          (script_of (Ok tt) (Raise (TimeoutExpired (lit "timed out")))
                     (Ok true) (Ok [])
                     (Ok (lit "ORCA TERMINATED NORMALLY"))))
  = Ok (false, output_file_of sample_dir, TIMEOUT_MSG).
Proof.
  refine (f_equal result_of
            (proj1 (proj2 (timeout_classified
                             script scripted _ _ _ sample_input sample_dir
                             tt (lit "timed out") _ _))));
    reflexivity.
Defined.

(** C9 as worded does not hold: the engine is launched through a shell
    command line with a redirection operator.  The launch of a concrete
    run. *)
Lemma shell_redirection_used :
  launches
    (trace_of
       (exec scripted (run_orca_calculation sample_input sample_dir)
             (script_of (Ok tt) (Ok 0%Z) (Ok true) (Ok [])
                        (Ok (lit "ORCA TERMINATED NORMALLY")))))
  = [{| args := lit "orca /tmp/job/calculation.inp >& /tmp/job/calculation.out";
        shell := true;
        cwd := lit "/tmp/job";
        timeout := 300 |}]
  /\ str_in (lit ">&")
            (lit "orca /tmp/job/calculation.inp >& /tmp/job/calculation.out")
     = true.
Proof. split; reflexivity. Qed.

Section AllCalls.

Context {W : Type} (os : env W) (P : event -> Prop).

Lemma trace_all_calls {A : Type} (p : prog A) :
  all_calls P p -> forall w, Forall P (trace_of (exec os p w)).
Proof.
  induction p as [a|e|C c k IH]; intros Hp w.
  - constructor.
  - constructor.
  - destruct Hp as [Hc Hk].
    destruct (os _ c w) as [o w1] eqn:E.
    rewrite (trace_Do os c k w w1 o E).
    constructor; [exact Hc|]. now apply IH.
Qed.

End AllCalls.

Lemma launches_none (tr : list event) :
  Forall (fun e => launch_of e = None) tr -> launches tr = [].
Proof.
  induction 1 as [|e tr He _ IH]; [reflexivity|].
  unfold launches in *. simpl. now rewrite He.
Qed.

(** C9 (as the code has it).  When the input file has been written, the
    engine is launched exactly once, by one call of [subprocess.run] whose
    arguments are a command string, [shell=True], the working directory
    as [cwd] and a timeout of 300; the command string is
    [orca <input file> >& <output file>], and it contains the redirection
    operator [>&]. *)
Theorem launched_through_shell :
  forall (W : Type) (os : env W) (w w1 : W) (input_content temp_dir : str)
         (u : unit),
    os _ (WriteFile (input_file_of temp_dir) input_content) w = (Ok u, w1) ->
    launches
      (trace_of (exec os (run_orca_calculation input_content temp_dir) w))
    = [launch_args temp_dir]
    /\ shell (launch_args temp_dir) = true
    /\ cwd (launch_args temp_dir) = temp_dir
    /\ timeout (launch_args temp_dir) = 300%Z
    /\ args (launch_args temp_dir)
       = lit "orca " ++ input_file_of temp_dir ++ lit " >& "
         ++ output_file_of temp_dir
    /\ str_in (lit ">&") (args (launch_args temp_dir)) = true.
Proof.
  intros W os w w1 input_content temp_dir u Hw.
  split; [|split; [reflexivity|split; [reflexivity|split;
    [reflexivity|split; [reflexivity|]]]]].
  - unfold run_orca_calculation, perform. cbn [bind].
    rewrite (trace_Do os _ _ w w1 _ Hw). cbn [bind try_catch].
    destruct (os _ (SubprocessRun (launch_args temp_dir)) w1) as [rc w2] eqn:Hr.
    rewrite (trace_Do os _ _ w1 w2 _ Hr).
    change (launches (?a :: Called (SubprocessRun ?x) :: ?t))
      with (x :: launches t).
    f_equal. apply launches_none, trace_all_calls.
    destruct rc as [returncode|[msg|msg]]; simpl; try exact I.
    split; [reflexivity|]. intros [[|]|[msg|msg]]; simpl; try exact I.
    + split; [reflexivity|]. intros [c|[msg|msg]]; simpl; try exact I.
      destruct (negb (str_in SUCCESS_MARKER c)); exact I.
    + split; [reflexivity|]. intros [l|[msg|msg]]; exact I.
  - cbn [args launch_args].
    change (lit " >& " ++ output_file_of temp_dir)
      with ([" "%char] ++ lit ">&" ++ lit " " ++ output_file_of temp_dir).
    rewrite (app_assoc (input_file_of temp_dir)), (app_assoc (lit "orca ")).
    apply str_in_app.
Qed.

Lemma launched_through_shell_witness :
  launches
    (trace_of
       (exec scripted (run_orca_calculation sample_input sample_dir)
             (script_of (Ok tt) (Ok 0%Z) (Ok true) (Ok [])
                        (Ok (lit "ORCA TERMINATED NORMALLY")))))
  = [launch_args sample_dir].
Proof.
  refine (proj1 (launched_through_shell script scripted _ _ sample_input
                                        sample_dir tt _)).
  reflexivity.
Defined.

(** ** The output parser as a program *)

(** C8.  [parse_orca_output] always returns a triple: the three parsed
    components when the file could be read, and, when reading raised an
    exception, [Error: ] followed by the message of the exception as energy
    and as geometry (and the message alone as third component). *)
Theorem parse_orca_output_returns :
  forall (W : Type) (os : env W) (w : W) (output_file : str),
    (exists t, result_of (exec os (parse_orca_output output_file) w) = Ok t)
    /\ (forall e w1,
           os _ (ReadFile output_file) w = (Raise e, w1) ->
           result_of (exec os (parse_orca_output output_file) w)
           = Ok (ERROR_PREFIX ++ str_of_exn e, ERROR_PREFIX ++ str_of_exn e,
                 str_of_exn e))
    /\ (forall content w1,
           os _ (ReadFile output_file) w = (Ok content, w1) ->
           result_of (exec os (parse_orca_output output_file) w)
           = Ok (parse_energy content, parse_geometry content, content)).
Proof.
  intros W os w output_file. split; [|split].
  - apply try_catch_returns. intros e. eexists. reflexivity.
  - intros e w1 H. unfold parse_orca_output, perform. cbn [bind try_catch].
    rewrite (result_Do os _ _ w w1 _ H). reflexivity.
  - intros content w1 H. unfold parse_orca_output, perform.
    cbn [bind try_catch]. rewrite (result_Do os _ _ w w1 _ H). reflexivity.
Qed.

Lemma parse_orca_output_returns_witness :
  result_of
    (exec scripted (parse_orca_output (output_file_of sample_dir))
          (script_of (Ok tt) (Ok 0%Z) (Ok true) (Ok [])
                     (Raise (OtherException (lit "[Errno 13] Permission denied")))))
  = Ok (lit "Error: [Errno 13] Permission denied",
        lit "Error: [Errno 13] Permission denied",
        lit "[Errno 13] Permission denied").
Proof.
  refine (proj1 (proj2 (parse_orca_output_returns
                          script scripted _ (output_file_of sample_dir)))
                (OtherException (lit "[Errno 13] Permission denied")) _ _).
  reflexivity.
Defined.

(** ** The lines kept from a block *)

Lemma atom_step_keeps (acc : list str) (line : str) :
  atom_step acc line
  = if keeps line then acc ++ [format_line line] else acc.
Proof.
  unfold atom_step, keeps, format_line. cbv zeta.
  destruct (negb (length (strip line) =? 0)); cbn [andb]; [|reflexivity].
  destruct (negb (startswith (lit "-") (strip line))); cbn [andb];
    [|reflexivity].
  destruct (4 <=? length (split_ws (strip line))); cbn [andb]; reflexivity.
Qed.

Lemma fold_atom_step (ls : list str) (acc : list str) :
  fold_left atom_step ls acc = acc ++ map format_line (filter keeps ls).
Proof.
  revert acc. induction ls as [|l ls IH]; intros acc; simpl.
  - now rewrite app_nil_r.
  - rewrite IH, atom_step_keeps. destruct (keeps l); simpl.
    + now rewrite <- app_assoc.
    + reflexivity.
Qed.

Lemma ljust_length (w : nat) (s : str) : length (ljust w s) = Nat.max w (length s).
Proof. unfold ljust. rewrite length_app, repeat_length. lia. Qed.

Lemma rjust_length (w : nat) (s : str) : length (rjust w s) = Nat.max w (length s).
Proof. unfold rjust. rewrite length_app, repeat_length. lia. Qed.

(** C3 as worded does not hold: a line with a
    fifth field that is not a number is kept (its last three fields are
    not all numbers), and a line whose last three fields are numbers but
    whose second field is not is dropped. *)
Lemma last_three_fields_not_the_rule :
  (spec_keeps (lit "O 1.0 2.0 3.0 x") = false
   /\ geometry_of_block (lit "O 1.0 2.0 3.0 x")
      = lit "O            1.0           2.0           3.0")
  /\ (spec_keeps (lit "H x 1.0 2.0 3.0") = true
      /\ atom_lines_of (lit "H x 1.0 2.0 3.0") = []).
Proof. repeat split; reflexivity. Qed.

(** C3 (as the code has it).  From the lines of the block the parser keeps
    exactly those that, once stripped, are not empty, do not start with a
    dash, have at least four fields and whose second, third and fourth
    fields are accepted by [float]; every other line is dropped and the
    parse goes on.  A kept line is stored as its first field padded on the
    right to at least 2 characters and its next three fields each padded
    on the left to at least 12 characters, with two spaces between them;
    further fields are left out.  The block with a two-field line among
    valid lines loses that line only. *)
Theorem kept_lines_of_block :
  (forall block : str,
      atom_lines_of block = map format_line (filter keeps (split_nl block))
      /\ geometry_of_block block
         = match map format_line (filter keeps (split_nl (strip block))) with
           | [] => NOT_FOUND
           | ls => join [nl] ls
           end)
  /\ (forall (e x y z : str) (more : list str),
         format_atom (e :: x :: y :: z :: more)
         = ljust 2 e ++ lit "  " ++ rjust 12 x ++ lit "  " ++ rjust 12 y
           ++ lit "  " ++ rjust 12 z
         /\ ljust 2 e = e ++ repeat " "%char (2 - length e)
         /\ rjust 12 x = repeat " "%char (12 - length x) ++ x
         /\ length (ljust 2 e) = Nat.max 2 (length e)
         /\ length (rjust 12 x) = Nat.max 12 (length x))
  /\ geometry_of_block
       (lit "  O   0.000000   0.000000   0.117790" ++ [nl]
        ++ lit "  bad line" ++ [nl]
        ++ lit "  H   0.000000   0.755453  -0.471161" ++ [nl])
     = lit "O       0.000000      0.000000      0.117790" ++ [nl]
       ++ lit "H       0.000000      0.755453     -0.471161".
Proof.
  split; [|split].
  - intros block. unfold geometry_of_block, atom_lines_of.
    rewrite !fold_atom_step. cbn [app]. split; reflexivity.
  - intros e x y z more. repeat split.
    + apply ljust_length.
    + apply rjust_length.
  - reflexivity.
Qed.

(** ** Reading the matcher *)

Lemma is_digit_other (c : ascii) :
  is_digit c = true ->
  is_space c = false /\ is_sign c = false /\ is_dot c = false
  /\ is_e c = false /\ is_nl c = false /\ is_dash c = false.
Proof.
  destruct c as [[] [] [] [] [] [] [] []]; intros H;
    try discriminate H; repeat split; reflexivity.
Qed.

Lemma is_sign_other (c : ascii) :
  is_sign c = true -> is_space c = false /\ is_digit c = false.
Proof.
  destruct c as [[] [] [] [] [] [] [] []]; intros H;
    try discriminate H; repeat split; reflexivity.
Qed.

Lemma is_dot_other (c : ascii) :
  is_dot c = true -> is_space c = false /\ is_digit c = false.
Proof.
  destruct c as [[] [] [] [] [] [] [] []]; intros H;
    try discriminate H; repeat split; reflexivity.
Qed.

Lemma is_e_other (c : ascii) :
  is_e c = true -> is_digit c = false /\ is_dot c = false.
Proof.
  destruct c as [[] [] [] [] [] [] [] []]; intros H;
    try discriminate H; repeat split; reflexivity.
Qed.

Lemma is_nl_space (c : ascii) : is_nl c = true -> is_space c = true.
Proof.
  intros H. apply Ascii.eqb_eq in H. subst c. reflexivity.
Qed.

Lemma m_Chr_cons (p : ascii -> bool) (cap : option str) (c : ascii) (s : str) :
  m (Chr p) (cap, c :: s) = if p c then [(cap, s)] else [].
Proof. reflexivity. Qed.

Lemma m_Seq (r1 r2 : regex) (st : mstate) :
  m (Seq r1 r2) st = flat_map (m r2) (m r1 st).
Proof. reflexivity. Qed.

Lemma m_Eps (st : mstate) : m Eps st = [st].
Proof. reflexivity. Qed.

Lemma m_Alt (r1 r2 : regex) (st : mstate) :
  m (Alt r1 r2) st = m r1 st ++ m r2 st.
Proof. reflexivity. Qed.

Lemma m_Lit_app (l : str) (cap : option str) (s : str) :
  m (Lit l) (cap, l ++ s) = [(cap, s)].
Proof.
  induction l as [|c l IH]; [reflexivity|].
  cbn [Lit app]. rewrite m_Seq, m_Chr_cons, Ascii.eqb_refl.
  cbn [flat_map]. rewrite app_nil_r. exact IH.
Qed.

Lemma m_Lit_fail (l : str) (cap : option str) (s : str) :
  startswith l s = false -> m (Lit l) (cap, s) = [].
Proof.
  revert s. induction l as [|c l IH]; intros s H; [discriminate|].
  cbn [Lit]. rewrite m_Seq. destruct s as [|b s]; [reflexivity|].
  rewrite m_Chr_cons. simpl in H.
  destruct (Ascii.eqb c b); [|reflexivity].
  cbn [flat_map]. rewrite app_nil_r. exact (IH s H).
Qed.

Lemma star_chr (p : ascii -> bool) (cap : option str) (s : str) :
  forall fuel, length s <= fuel ->
  star true (m (Chr p)) fuel (cap, s) = map (pair cap) (greedy_tails p s).
Proof.
  induction s as [|c s IH]; intros fuel Hf.
  - destruct fuel; reflexivity.
  - destruct fuel as [|n]; [simpl in Hf; lia|].
    cbn [star greedy_tails]. rewrite m_Chr_cons.
    destruct (p c); [|reflexivity].
    cbn [flat_map snd]. 
    replace (length s <? length (c :: s)) with true
      by (symmetry; apply Nat.ltb_lt; simpl; lia).
    rewrite IH by (simpl in Hf; lia).
    rewrite app_nil_r, map_app. reflexivity.
Qed.

Lemma m_Star_chr (p : ascii -> bool) (cap : option str) (s : str) :
  m (Star true (Chr p)) (cap, s) = map (pair cap) (greedy_tails p s).
Proof. cbn [m snd]. now apply star_chr. Qed.

Lemma m_Plus_chr (p : ascii -> bool) (cap : option str) (c : ascii) (s : str) :
  m (Plus (Chr p)) (cap, c :: s)
  = if p c then map (pair cap) (greedy_tails p s) else [].
Proof.
  unfold Plus. rewrite m_Seq, m_Chr_cons. destruct (p c); [|reflexivity].
  cbn [flat_map]. rewrite m_Star_chr, app_nil_r. reflexivity.
Qed.

(** The first input a greedy run leaves is the one after the whole run. *)
Lemma greedy_tails_head (p : ascii -> bool) (s : str) :
  exists l, greedy_tails p s = dropwhile p s :: l.
Proof.
  induction s as [|c s [l IH]]; [now exists []|].
  simpl. destruct (p c).
  - rewrite IH. now exists (l ++ [c :: s]).
  - now exists [].
Qed.

Lemma dropwhile_run (p : ascii -> bool) (run rest : str) :
  forallb p run = true ->
  match rest with [] => true | c :: _ => negb (p c) end = true ->
  dropwhile p (run ++ rest) = rest.
Proof.
  intros Hr Hs. induction run as [|c run IH]; simpl in *.
  - destruct rest as [|c rest]; [reflexivity|].
    apply negb_true_iff in Hs. simpl. now rewrite Hs.
  - apply andb_true_iff in Hr as [Hc Hr]. rewrite Hc. now apply IH.
Qed.

(** After a run that is not empty, the second choice gives back its last
    character only. *)
Lemma greedy_tails_run (p : ascii -> bool) (run rest : str) :
  run <> [] ->
  forallb p run = true ->
  match rest with [] => true | c :: _ => negb (p c) end = true ->
  exists l, greedy_tails p (run ++ rest) = rest :: (last run nl :: rest) :: l.
Proof.
  intros Hne Hr Hs. induction run as [|c run IH]; [contradiction|].
  simpl in Hr. apply andb_true_iff in Hr as [Hc Hr].
  destruct run as [|c' run].
  - simpl. rewrite Hc. exists [].
    destruct rest as [|d rest]; [reflexivity|].
    apply negb_true_iff in Hs. simpl. now rewrite Hs.
  - destruct (IH ltac:(discriminate) Hr) as [l Hl].
    change (greedy_tails p ((c :: c' :: run) ++ rest))
      with (if p c then greedy_tails p ((c' :: run) ++ rest)
                        ++ [c :: (c' :: run) ++ rest]
            else [c :: (c' :: run) ++ rest]).
    rewrite Hc, Hl. eexists. reflexivity.
Qed.

Lemma last_forallb (p : ascii -> bool) (run : str) (d : ascii) :
  run <> [] -> forallb p run = true -> p (last run d) = true.
Proof.
  intros Hne Hr. induction run as [|c run IH]; [contradiction|].
  simpl in Hr. apply andb_true_iff in Hr as [Hc Hr].
  destruct run as [|c' run]; [exact Hc|].
  apply IH; [discriminate | exact Hr].
Qed.

Lemma first_match_Seq (r1 r2 : regex) (st st1 st2 : mstate) :
  first_match r1 st = Some st1 ->
  first_match r2 st1 = Some st2 ->
  first_match (Seq r1 r2) st = Some st2.
Proof.
  unfold first_match. rewrite m_Seq.
  destruct (m r1 st) as [|x l]; [discriminate|]. intros [= ->].
  cbn [flat_map]. destruct (m r2 st1) as [|y l']; [discriminate|].
  intros [= ->]. reflexivity.
Qed.

Lemma first_match_Alt_l (r1 r2 : regex) (st st1 : mstate) :
  first_match r1 st = Some st1 -> first_match (Alt r1 r2) st = Some st1.
Proof.
  unfold first_match. cbn [m]. destruct (m r1 st); [discriminate|].
  intros [= ->]. reflexivity.
Qed.

Lemma first_match_Alt_r (r1 r2 : regex) (st : mstate) :
  m r1 st = [] -> first_match (Alt r1 r2) st = first_match r2 st.
Proof. unfold first_match. cbn [m]. now intros ->. Qed.

Lemma m_Chr_miss (p : ascii -> bool) (cap : option str) (s : str) :
  match s with [] => true | c :: _ => negb (p c) end = true ->
  m (Chr p) (cap, s) = [].
Proof.
  destruct s as [|c s]; [reflexivity|]. intros H.
  apply negb_true_iff in H. rewrite m_Chr_cons, H. reflexivity.
Qed.

(** A run of the class and what is left after it. *)
Lemma first_match_Plus_run (p : ascii -> bool) (cap : option str)
      (run rest : str) :
  run <> [] ->
  forallb p run = true ->
  match rest with [] => true | c :: _ => negb (p c) end = true ->
  first_match (Plus (Chr p)) (cap, run ++ rest) = Some (cap, rest).
Proof.
  intros Hne Hr Hs. destruct run as [|c run]; [contradiction|].
  simpl in Hr. apply andb_true_iff in Hr as [Hc Hr].
  unfold first_match. cbn [app]. rewrite m_Plus_chr, Hc.
  destruct (greedy_tails_head p (run ++ rest)) as [l Hl].
  rewrite Hl, (dropwhile_run p run rest Hr Hs). reflexivity.
Qed.

Lemma m_Plus_miss (p : ascii -> bool) (cap : option str) (s : str) :
  match s with [] => true | c :: _ => negb (p c) end = true ->
  m (Plus (Chr p)) (cap, s) = [].
Proof.
  intros H. unfold Plus. rewrite m_Seq, (m_Chr_miss p cap s H). reflexivity.
Qed.

Lemma first_match_Chr (p : ascii -> bool) (cap : option str) (c : ascii)
      (s : str) :
  p c = true -> first_match (Chr p) (cap, c :: s) = Some (cap, s).
Proof. intros H. unfold first_match. now rewrite m_Chr_cons, H. Qed.

Lemma ends_number_digit (post : str) :
  ends_number post = true ->
  match post with [] => true | c :: _ => negb (is_digit c) end = true.
Proof.
  destruct post as [|c post]; [reflexivity|]. unfold ends_number.
  destruct (is_digit c); [discriminate | reflexivity].
Qed.

Lemma ends_number_dot (post : str) :
  ends_number post = true ->
  match post with [] => true | c :: _ => negb (is_dot c) end = true.
Proof.
  destruct post as [|c post]; [reflexivity|]. unfold ends_number.
  destruct (is_digit c), (is_dot c); try discriminate; reflexivity.
Qed.

Lemma ends_number_e (post : str) :
  ends_number post = true ->
  match post with [] => true | c :: _ => negb (is_e c) end = true.
Proof.
  destruct post as [|c post]; [reflexivity|]. unfold ends_number.
  destruct (is_digit c), (is_dot c), (is_e c); try discriminate; reflexivity.
Qed.

Lemma first_match_exponent (cap : option str) (ex post : str) :
  exponent_ok ex = true ->
  ends_number post = true ->
  first_match exponent_re (cap, ex ++ post) = Some (cap, post).
Proof.
  intros Hex Hpost. unfold exponent_re, Opt.
  destruct ex as [|e t].
  - cbn [app]. rewrite first_match_Alt_r; [reflexivity|].
    rewrite m_Seq, (m_Chr_miss is_e cap _ (ends_number_e post Hpost)).
    reflexivity.
  - simpl in Hex. apply andb_true_iff in Hex as [He Hd].
    apply andb_true_iff in Hd as [Hne Hd].
    apply first_match_Alt_l.
    apply (first_match_Seq _ _ _ (cap, t ++ post));
      [now apply first_match_Chr|].
    destruct t as [|c t]; [discriminate|].
    unfold drop_sign in Hne, Hd. destruct (is_sign c) eqn:Hc.
    + apply (first_match_Seq _ _ _ (cap, t ++ post)).
      * apply first_match_Alt_l. now apply first_match_Chr.
      * apply first_match_Plus_run;
          [destruct t; [discriminate Hne | discriminate] | exact Hd
          | now apply ends_number_digit].
    + apply (first_match_Seq _ _ _ (cap, (c :: t) ++ post)).
      * rewrite first_match_Alt_r; [reflexivity|].
        cbn [app]. now rewrite m_Chr_cons, Hc.
      * apply first_match_Plus_run;
          [discriminate | exact Hd | now apply ends_number_digit].
Qed.

(** The mantissa [\d*\.?\d+] followed by a pattern [T], when a fraction
    is present. *)
Lemma first_match_fraction (T : regex) (cap : option str)
      (ip fd R : str) (dot : ascii) (st : mstate) :
  forallb is_digit ip = true ->
  is_dot dot = true ->
  fd <> [] ->
  forallb is_digit fd = true ->
  match R with [] => true | c :: _ => negb (is_digit c) end = true ->
  first_match T (cap, R) = Some st ->
  first_match
    (Seq (Star true (Chr is_digit))
         (Seq (Opt (Chr is_dot)) (Seq (Plus (Chr is_digit)) T)))
    (cap, ip ++ dot :: fd ++ R)
  = Some st.
Proof.
  intros Hip Hdot Hne Hfd HR HT.
  apply (first_match_Seq _ _ _ (cap, dot :: fd ++ R)).
  - unfold first_match. rewrite m_Star_chr.
    destruct (greedy_tails_head is_digit (ip ++ dot :: fd ++ R)) as [l Hl].
    rewrite Hl, (dropwhile_run is_digit ip (dot :: fd ++ R) Hip).
    + reflexivity.
    + now rewrite (proj2 (is_dot_other dot Hdot)).
  - apply (first_match_Seq _ _ _ (cap, fd ++ R)).
    + apply first_match_Alt_l. now apply first_match_Chr.
    + apply (first_match_Seq _ _ _ (cap, R)); [|exact HT].
      now apply first_match_Plus_run.
Qed.

(** The mantissa without a fraction: the repetition [\d*] takes all the
    digits, [\d+] then finds none, and the matcher backs off by one
    digit. *)
Lemma first_match_integer (T : regex) (cap : option str)
      (ip R : str) (st : mstate) :
  ip <> [] ->
  forallb is_digit ip = true ->
  match R with [] => true | c :: _ => negb (is_digit c) end = true ->
  match R with [] => true | c :: _ => negb (is_dot c) end = true ->
  first_match T (cap, R) = Some st ->
  first_match
    (Seq (Star true (Chr is_digit))
         (Seq (Opt (Chr is_dot)) (Seq (Plus (Chr is_digit)) T)))
    (cap, ip ++ R)
  = Some st.
Proof.
  intros Hne Hip HR HRdot HT.
  destruct (greedy_tails_run is_digit ip R Hne Hip HR) as [l Hl].
  pose proof (last_forallb is_digit ip nl Hne Hip) as Hlast.
  unfold first_match. rewrite m_Seq, m_Star_chr, Hl.
  cbn [map flat_map].
  assert (E1 : m (Seq (Opt (Chr is_dot)) (Seq (Plus (Chr is_digit)) T))
                 (cap, R) = []).
  { rewrite m_Seq. unfold Opt at 1.
    rewrite m_Alt, (m_Chr_miss is_dot cap R HRdot), m_Eps.
    cbn [app flat_map].
    rewrite m_Seq, (m_Plus_miss is_digit cap R HR). reflexivity. }
  rewrite E1. cbn [app].
  assert (E2 : first_match
                 (Seq (Opt (Chr is_dot)) (Seq (Plus (Chr is_digit)) T))
                 (cap, last ip nl :: R) = Some st).
  { apply (first_match_Seq _ _ _ (cap, last ip nl :: R)).
    - unfold Opt. rewrite first_match_Alt_r; [reflexivity|].
      rewrite m_Chr_cons.
      now rewrite (proj1 (proj2 (proj2 (is_digit_other _ Hlast)))).
    - apply (first_match_Seq _ _ _ (cap, R)); [|exact HT].
      apply (first_match_Plus_run is_digit cap [last ip nl] R);
        [discriminate | simpl; now rewrite Hlast | exact HR]. }
  unfold first_match in E2.
  destruct (m (Seq (Opt (Chr is_dot)) (Seq (Plus (Chr is_digit)) T))
              (cap, last ip nl :: R)) as [|y ys]; [discriminate|].
  exact E2.
Qed.

Lemma is_dot_not_sign (c : ascii) : is_dot c = true -> is_sign c = false.
Proof.
  intros H. apply Ascii.eqb_eq in H. subst c. reflexivity.
Qed.

Lemma first_match_number (cap : option str) (sg ip fp ex post : str) :
  numeral sg ip fp ex = true ->
  ends_number post = true ->
  first_match number_re (cap, sg ++ ip ++ fp ++ ex ++ post) = Some (cap, post).
Proof.
  intros Hnum Hpost. unfold numeral in Hnum.
  apply andb_true_iff in Hnum as [Hnum Hex].
  apply andb_true_iff in Hnum as [Hnum Hfp].
  apply andb_true_iff in Hnum as [Hsg Hip].
  assert (HRd : match ex ++ post with
                | [] => true | c :: _ => negb (is_digit c) end = true).
  { destruct ex as [|e t]; [now apply ends_number_digit|].
    simpl in Hex. apply andb_true_iff in Hex as [He _].
    cbn [app]. now rewrite (proj1 (is_e_other e He)). }
  assert (HRp : match ex ++ post with
                | [] => true | c :: _ => negb (is_dot c) end = true).
  { destruct ex as [|e t]; [now apply ends_number_dot|].
    simpl in Hex. apply andb_true_iff in Hex as [He _].
    cbn [app]. now rewrite (proj2 (is_e_other e He)). }
  pose proof (first_match_exponent cap ex post Hex Hpost) as HT.
  assert (Hm : first_match
                 (Seq (Star true (Chr is_digit))
                      (Seq (Opt (Chr is_dot))
                           (Seq (Plus (Chr is_digit)) exponent_re)))
                 (cap, ip ++ fp ++ ex ++ post) = Some (cap, post)).
  { destruct fp as [|d fd].
    - apply negb_true_iff, Nat.eqb_neq in Hfp. cbn [app].
      apply first_match_integer; try assumption.
      intros ->. now apply Hfp.
    - apply andb_true_iff in Hfp as [Hfp Hfd].
      apply andb_true_iff in Hfp as [Hd Hne].
      apply negb_true_iff, Nat.eqb_neq in Hne.
      rewrite <- app_comm_cons.
      apply first_match_fraction; try assumption.
      intros ->. now apply Hne. }
  unfold number_re.
  destruct sg as [|c [|c' sg]]; [| |discriminate].
  - apply (first_match_Seq _ _ _ (cap, ip ++ fp ++ ex ++ post)); [|exact Hm].
    unfold Opt. rewrite first_match_Alt_r; [reflexivity|].
    apply m_Chr_miss. destruct ip as [|i ip].
    + destruct fp as [|d fd]; [discriminate|].
      apply andb_true_iff in Hfp as [Hfp _].
      apply andb_true_iff in Hfp as [Hd _].
      cbn [app]. now rewrite (is_dot_not_sign d Hd).
    + simpl in Hip. apply andb_true_iff in Hip as [Hi _].
      cbn [app].
      now rewrite (proj1 (proj2 (is_digit_other i Hi))).
  - apply (first_match_Seq _ _ _ (cap, ip ++ fp ++ ex ++ post)); [|exact Hm].
    apply first_match_Alt_l. now apply first_match_Chr.
Qed.

Lemma firstn_app_sub (a b : str) :
  firstn (length (a ++ b) - length b) (a ++ b) = a.
Proof.
  rewrite length_app. replace (length a + length b - length b) with (length a)
    by lia.
  rewrite firstn_app, Nat.sub_diag, firstn_all. simpl. apply app_nil_r.
Qed.

Lemma first_match_Group (r : regex) (cap cap' : option str) (s s' : str) :
  first_match r (cap, s) = Some (cap', s') ->
  first_match (Group r) (cap, s)
  = Some (Some (firstn (length s - length s') s), s').
Proof.
  unfold first_match. cbn [m]. destruct (m r (cap, s)) as [|x l];
    [discriminate|].
  intros [= ->]. reflexivity.
Qed.

Lemma numeral_first_char (sg ip fp ex rest : str) :
  numeral sg ip fp ex = true ->
  match sg ++ ip ++ fp ++ ex ++ rest with
  | [] => true | c :: _ => negb (is_space c) end = true.
Proof.
  intros Hnum. unfold numeral in Hnum.
  apply andb_true_iff in Hnum as [Hnum Hex].
  apply andb_true_iff in Hnum as [Hnum Hfp].
  apply andb_true_iff in Hnum as [Hsg Hip].
  destruct sg as [|c [|c' sg]]; [| |discriminate].
  - cbn [app]. destruct ip as [|i ip].
    + destruct fp as [|d fd]; [discriminate|].
      apply andb_true_iff in Hfp as [Hfp _].
      apply andb_true_iff in Hfp as [Hd _].
      cbn [app]. now rewrite (proj1 (is_dot_other d Hd)).
    + simpl in Hip. apply andb_true_iff in Hip as [Hi _].
      cbn [app]. now rewrite (proj1 (is_digit_other i Hi)).
  - cbn [app]. now rewrite (proj1 (is_sign_other c Hsg)).
Qed.

(** The energy pattern at the label. *)
Lemma first_match_energy (ws sg ip fp ex post : str) :
  ws <> [] ->
  forallb is_space ws = true ->
  numeral sg ip fp ex = true ->
  ends_number post = true ->
  first_match energy_pattern
              (None, ENERGY_LABEL ++ ws ++ (sg ++ ip ++ fp ++ ex) ++ post)
  = Some (Some (sg ++ ip ++ fp ++ ex), post).
Proof.
  intros Hne Hws Hnum Hpost. unfold energy_pattern.
  apply (first_match_Seq _ _ _ (None, ws ++ (sg ++ ip ++ fp ++ ex) ++ post)).
  { unfold first_match. now rewrite m_Lit_app. }
  apply (first_match_Seq _ _ _ (None, (sg ++ ip ++ fp ++ ex) ++ post)).
  { apply first_match_Plus_run; try assumption.
    rewrite <- !app_assoc. now apply numeral_first_char. }
  rewrite <- (firstn_app_sub (sg ++ ip ++ fp ++ ex) post) at 2.
  apply (first_match_Group _ None None).
  rewrite <- !app_assoc. now apply first_match_number.
Qed.

Lemma re_search_eq (r : regex) (s : str) :
  re_search r s
  = match m r (None, s) with
    | st :: _ => Some st
    | [] => match s with
            | [] => None
            | _ :: t => re_search r t
            end
    end.
Proof. destruct s; reflexivity. Qed.

(** A pattern that starts with a literal matches nowhere before the first
    occurrence of the literal. *)
Lemma re_search_skip (l : str) (r : regex) (pre s : str) :
  str_find l (pre ++ s) = Some (length pre) ->
  re_search (Seq (Lit l) r) (pre ++ s) = re_search (Seq (Lit l) r) s.
Proof.
  induction pre as [|c pre IH]; intros H; [reflexivity|].
  rewrite str_find_eq in H.
  destruct (startswith l ((c :: pre) ++ s)) eqn:Hs; [discriminate|].
  cbn [app] in H.
  destruct (str_find l (pre ++ s)) as [n|] eqn:Hf; [|discriminate].
  simpl in H. injection H as ->.
  rewrite re_search_eq, m_Seq, (m_Lit_fail l None _ Hs). cbn [flat_map app].
  now apply IH.
Qed.

Lemma re_search_none (l : str) (r : regex) (s : str) :
  str_find l s = None -> re_search (Seq (Lit l) r) s = None.
Proof.
  induction s as [|c s IH]; intros H; rewrite str_find_eq in H;
    destruct (startswith l _) eqn:Hs; try discriminate;
    rewrite re_search_eq, m_Seq, (m_Lit_fail l None _ Hs); cbn [flat_map].
  - reflexivity.
  - apply IH. destruct (str_find l s); [discriminate | reflexivity].
Qed.

Lemma re_search_first (r : regex) (s : str) (st : mstate) :
  first_match r (None, s) = Some st -> re_search r s = Some st.
Proof.
  unfold first_match. rewrite re_search_eq.
  destruct (m r (None, s)); [discriminate|]. now intros [= ->].
Qed.

(** ** Patterns without a group leave the captured text alone *)

Lemma star_fst (g : bool) (body : mstate -> list mstate) :
  (forall st st', In st' (body st) -> fst st' = fst st) ->
  forall fuel st st', In st' (star g body fuel st) -> fst st' = fst st.
Proof.
  intros Hb. induction fuel as [|n IH]; intros st st' H.
  - destruct H as [<-|[]]. reflexivity.
  - cbn [star] in H.
    assert (Hmore : forall x,
               In x (flat_map
                       (fun st1 => if length (snd st1) <? length (snd st)
                                   then star g body n st1 else [])
                       (body st)) -> fst x = fst st).
    { intros x Hx. apply in_flat_map in Hx as [y [Hy Hx]].
      destruct (length (snd y) <? length (snd st)); [|contradiction].
      rewrite (IH _ _ Hx). now apply Hb. }
    destruct g.
    + apply in_app_or in H as [H|[<-|[]]]; [now apply Hmore | reflexivity].
    + destruct H as [<-|H]; [reflexivity | now apply Hmore].
Qed.

Lemma m_groupless (r : regex) :
  groupless r = true ->
  forall st st', In st' (m r st) -> fst st' = fst st.
Proof.
  induction r as [|p|r1 IH1 r2 IH2|r1 IH1 r2 IH2|g r IH|r IH|r IH];
    intros Hg st st' H; cbn [groupless] in Hg.
  - destruct H as [<-|[]]. reflexivity.
  - cbn [m] in H. destruct (snd st) as [|c t]; [contradiction|].
    destruct (p c); [|contradiction]. destruct H as [<-|[]]. reflexivity.
  - apply andb_true_iff in Hg as [H1 H2]. rewrite m_Seq in H.
    apply in_flat_map in H as [x [Hx H]].
    rewrite (IH2 H2 _ _ H). now apply IH1.
  - apply andb_true_iff in Hg as [H1 H2]. rewrite m_Alt in H.
    apply in_app_or in H as [H|H]; [now apply IH1 | now apply IH2].
  - cbn [m] in H. revert H. apply star_fst. now apply IH.
  - discriminate.
  - cbn [m] in H. destruct (m r st) as [|x l] eqn:E; [contradiction|].
    destruct H as [<-|[]]. cbn [fst]. apply (IH Hg st x).
    rewrite E. now left.
Qed.

Lemma m_Ahead (r : regex) (cap : option str) (s : str) :
  groupless r = true ->
  m (Ahead r) (cap, s)
  = match m r (cap, s) with [] => [] | _ :: _ => [(cap, s)] end.
Proof.
  intros Hg. cbn [m]. destruct (m r (cap, s)) as [|x l] eqn:E; [reflexivity|].
  rewrite (m_groupless r Hg (cap, s) x); [reflexivity|].
  rewrite E. now left.
Qed.

(** ** The terminator *)

Lemma flat_map_nil {A B : Type} (f : A -> list B) (l : list A) :
  (forall x, In x l -> f x = []) -> flat_map f l = [].
Proof.
  induction l as [|x l IH]; intros H; [reflexivity|].
  cbn [flat_map]. rewrite (H x) by now left.
  apply IH. intros y Hy. apply H. now right.
Qed.

Lemma greedy_tails_nonempty (p : ascii -> bool) (s : str) :
  greedy_tails p s <> [].
Proof.
  destruct (greedy_tails_head p s) as [l ->]. discriminate.
Qed.

(** No newline in the leading white space: after the white space no
    choice of the repetition is followed by a newline. *)
Lemma greedy_space_no_nl (cap : option str) (s : str) :
  existsb is_nl (takewhile is_space s) = false ->
  forall x, In x (map (pair cap) (greedy_tails is_space s)) ->
            m (Chr is_nl) x = [].
Proof.
  induction s as [|c s IH]; intros H x Hx.
  - destruct Hx as [<-|[]]. reflexivity.
  - cbn [greedy_tails takewhile] in *. destruct (is_space c) eqn:Hc.
    + cbn [existsb] in H. apply orb_false_iff in H as [Hn H].
      rewrite map_app in Hx. apply in_app_or in Hx as [Hx|[<-|[]]].
      * now apply IH.
      * now rewrite m_Chr_cons, Hn.
    + destruct Hx as [<-|[]]. rewrite m_Chr_cons.
      destruct (is_nl c) eqn:Hn; [|reflexivity].
      apply is_nl_space in Hn. congruence.
Qed.

Lemma greedy_space_nl (cap : option str) (s : str) :
  existsb is_nl (takewhile is_space s) = true ->
  flat_map (m (Chr is_nl)) (map (pair cap) (greedy_tails is_space s)) <> [].
Proof.
  induction s as [|c s IH]; intros H; [discriminate|].
  cbn [greedy_tails takewhile] in *. destruct (is_space c) eqn:Hc;
    [|discriminate].
  cbn [existsb] in H. rewrite map_app, flat_map_app.
  destruct (is_nl c) eqn:Hn.
  - cbn [map flat_map]. rewrite m_Chr_cons, Hn.
    intros E. apply app_eq_nil in E as [_ E]. discriminate.
  - simpl in H. specialize (IH H). intros E.
    apply app_eq_nil in E as [E _]. contradiction.
Qed.

Lemma terminator_groupless : groupless terminator_re = true.
Proof. reflexivity. Qed.

Lemma m_dashes (cap : option str) (s : str) :
  m (Seq (Chr is_dash) (Seq (Chr is_dash) (Plus (Chr is_dash)))) (cap, s) = []
  <-> startswith (lit "---") s = false.
Proof.
  assert (D : forall c, Ascii.eqb "-"%char c = is_dash c).
  { intros c. unfold is_dash. apply Ascii.eqb_sym. }
  destruct s as [|a [|b [|c t]]]; cbn [lit list_ascii_of_string startswith];
    rewrite ?(D a), ?(D b), ?(D c).
  - split; reflexivity.
  - rewrite m_Seq, m_Chr_cons. destruct (is_dash a); split; reflexivity.
  - rewrite m_Seq, m_Chr_cons. destruct (is_dash a); [|split; reflexivity].
    cbn [flat_map]. rewrite m_Seq, m_Chr_cons.
    destruct (is_dash b); split; reflexivity.
  - rewrite m_Seq, m_Chr_cons. destruct (is_dash a); [|split; reflexivity].
    cbn [flat_map]. rewrite m_Seq, m_Chr_cons.
    destruct (is_dash b); [|split; reflexivity].
    cbn [flat_map]. rewrite m_Plus_chr.
    destruct (is_dash c); [|split; reflexivity].
    cbn [andb]. split; [|discriminate].
    rewrite !app_nil_r. intros E. apply map_eq_nil in E.
    now apply greedy_tails_nonempty in E.
Qed.

Lemma m_blank (cap : option str) (s : str) :
  m (Seq (Chr is_nl) (Seq (Star true (Chr is_space)) (Chr is_nl))) (cap, s) = []
  <-> match s with
      | c :: t => is_nl c && existsb is_nl (takewhile is_space t)
      | [] => false
      end = false.
Proof.
  destruct s as [|c t]; [split; reflexivity|].
  rewrite m_Seq, m_Chr_cons. destruct (is_nl c); [|split; reflexivity].
  cbn [flat_map andb]. rewrite app_nil_r, m_Seq, m_Star_chr.
  destruct (existsb is_nl (takewhile is_space t)) eqn:E.
  - split; [|discriminate]. intros H.
    now apply (greedy_space_nl cap t E) in H.
  - split; [reflexivity|]. intros _. apply flat_map_nil.
    now apply greedy_space_no_nl.
Qed.

(** The look-ahead succeeds exactly at a terminator. *)
Lemma m_terminator (cap : option str) (s : str) :
  m (Ahead terminator_re) (cap, s)
  = if terminator_at s then [(cap, s)] else [].
Proof.
  rewrite (m_Ahead _ _ _ terminator_groupless).
  unfold terminator_re, terminator_at. rewrite m_Alt.
  pose proof (m_dashes cap s) as Hd. pose proof (m_blank cap s) as Hb.
  destruct (startswith (lit "---") s).
  - destruct (m (Seq (Chr is_dash) _) (cap, s)); [|reflexivity].
    destruct Hd as [Hd _]. discriminate (Hd eq_refl).
  - rewrite (proj2 Hd eq_refl). cbn [app orb].
    destruct (match s with [] => false | c :: t => _ end).
    + destruct (m (Seq (Chr is_nl) _) (cap, s)); [|reflexivity].
      destruct Hb as [Hb _]. discriminate (Hb eq_refl).
    + now rewrite (proj2 Hb eq_refl).
Qed.

(** ** The block of a section *)

Lemma m_line (cap : option str) (l r : str) :
  no_newline l = true -> m line_re (cap, l ++ nl :: r) = [(cap, r)].
Proof.
  intros H. unfold line_re. rewrite m_Seq, m_Star_chr.
  unfold no_newline in H. apply negb_true_iff in H.
  induction l as [|c l IH].
  - reflexivity.
  - cbn [existsb] in H. apply orb_false_iff in H as [Hc Hl].
    assert (E : not_nl c = true) by (unfold not_nl; now rewrite Hc).
    change (greedy_tails not_nl ((c :: l) ++ nl :: r))
      with (if not_nl c
            then greedy_tails not_nl (l ++ nl :: r) ++ [c :: l ++ nl :: r]
            else [c :: l ++ nl :: r]).
    rewrite E, map_app, flat_map_app, (IH Hl).
    cbn [map flat_map]. rewrite m_Chr_cons, Hc. reflexivity.
Qed.

Lemma unlines_cons (l : str) (ls : list str) (tail : str) :
  unlines (l :: ls) ++ tail = l ++ nl :: unlines ls ++ tail.
Proof.
  unfold unlines. cbn [flat_map]. rewrite <- !app_assoc. reflexivity.
Qed.

Lemma unlines_length (ls : list str) : length ls <= length (unlines ls).
Proof.
  induction ls as [|l ls IH]; [reflexivity|].
  change (unlines (l :: ls)) with ((l ++ [nl]) ++ unlines ls).
  rewrite !length_app. simpl. lia.
Qed.

(** The lazy repetition of lines stops first before the block, then after
    each of its lines. *)
Lemma lazy_lines (cap : option str) (tail : str) (ls : list str) :
  forallb no_newline ls = true ->
  forall fuel, length ls <= fuel ->
  exists more,
    star false (m line_re) fuel (cap, unlines ls ++ tail)
    = map (pair cap) (line_starts ls tail) ++ (cap, tail) :: more.
Proof.
  induction ls as [|l ls IH]; intros Hnl fuel Hf.
  - destruct fuel; eexists; reflexivity.
  - destruct fuel as [|n]; [simpl in Hf; lia|].
    cbn [forallb] in Hnl. apply andb_true_iff in Hnl as [Hl Hls].
    destruct (IH Hls n ltac:(simpl in Hf; lia)) as [more Hmore].
    exists more. cbn [star line_starts map app].
    rewrite unlines_cons, (m_line cap l (unlines ls ++ tail) Hl).
    cbn [flat_map snd].
    replace (length (unlines ls ++ tail) <? length (l ++ nl :: unlines ls ++ tail))
      with true
      by (symmetry; apply Nat.ltb_lt; rewrite (length_app l); simpl; lia).
    rewrite Hmore, app_nil_r. reflexivity.
Qed.

Lemma first_match_block (cap : option str) (ls : list str) (tail : str) :
  forallb no_newline ls = true ->
  block_open ls tail = true ->
  terminator_at tail = true ->
  first_match (Seq (Group (Star false line_re)) (Ahead terminator_re))
              (cap, unlines ls ++ tail)
  = Some (Some (unlines ls), tail).
Proof.
  intros Hnl Hopen Hterm. unfold first_match. rewrite m_Seq.
  change (m (Group (Star false line_re)) (cap, unlines ls ++ tail))
    with (map (fun st' : mstate =>
                 (Some (firstn (length (unlines ls ++ tail) - length (snd st'))
                               (unlines ls ++ tail)), snd st'))
              (star false (m line_re) (length (unlines ls ++ tail))
                    (cap, unlines ls ++ tail))).
  destruct (lazy_lines cap tail ls Hnl (length (unlines ls ++ tail)))
    as [more Hmore].
  { rewrite length_app. pose proof (unlines_length ls). lia. }
  rewrite Hmore, map_app, flat_map_app.
  rewrite flat_map_nil.
  - cbn [map flat_map snd app]. rewrite m_terminator, Hterm.
    rewrite firstn_app_sub. reflexivity.
  - intros x Hx. apply in_map_iff in Hx as [y [<- Hy]].
    apply in_map_iff in Hy as [s [<- Hs]]. cbn [snd].
    rewrite m_terminator.
    unfold block_open in Hopen. rewrite forallb_forall in Hopen.
    specialize (Hopen s Hs). apply negb_true_iff in Hopen.
    now rewrite Hopen.
Qed.

(** ** The header and the rule *)

Lemma forallb_repeat (p : ascii -> bool) (c : ascii) (n : nat) :
  p c = true -> forallb p (repeat c n) = true.
Proof.
  intros H. induction n as [|n IH]; [reflexivity|]. simpl. now rewrite H.
Qed.

Lemma first_match_rule (REST : regex) (cap : option str) (n : nat)
      (B : str) (st : mstate) :
  1 <= n ->
  existsb is_nl (takewhile is_space B) = false ->
  first_match REST (cap, B) = Some st ->
  first_match
    (Seq (Star true (Chr is_space))
      (Seq (Plus (Chr is_dash))
        (Seq (Star true (Chr is_space)) (Seq (Chr is_nl) REST))))
    (cap, nl :: repeat "-"%char n ++ nl :: B)
  = Some st.
Proof.
  intros Hn HB HR.
  apply (first_match_Seq _ _ _ (cap, repeat "-"%char n ++ nl :: B)).
  { unfold first_match. rewrite m_Star_chr.
    destruct (greedy_tails_head is_space (nl :: repeat "-"%char n ++ nl :: B))
      as [l Hl].
    pose proof (dropwhile_run is_space [nl] (repeat "-"%char n ++ nl :: B)
                              eq_refl) as Hd.
    cbn [app] in Hd. rewrite Hl, Hd; [reflexivity|].
    destruct n; [lia | reflexivity]. }
  apply (first_match_Seq _ _ _ (cap, nl :: B)).
  { apply first_match_Plus_run.
    - destruct n; [lia | discriminate].
    - now apply forallb_repeat.
    - reflexivity. }
  unfold first_match. rewrite m_Seq, m_Star_chr.
  change (greedy_tails is_space (nl :: B))
    with (greedy_tails is_space B ++ [nl :: B]).
  rewrite map_app, flat_map_app, flat_map_nil.
  - cbn [map flat_map app]. rewrite m_Seq, m_Chr_cons.
    change (is_nl nl) with true. cbn [flat_map].
    rewrite !app_nil_r. exact HR.
  - intros x Hx. rewrite m_Seq, (greedy_space_no_nl cap B HB x Hx).
    reflexivity.
Qed.

Lemma visible_first_line (l rest : str) :
  visible l = true ->
  no_newline l = true ->
  existsb is_nl (takewhile is_space (l ++ rest)) = false.
Proof.
  unfold visible, no_newline. intros Hv Hn. apply negb_true_iff in Hn.
  induction l as [|c l IH]; [discriminate|].
  cbn [existsb] in Hv, Hn. apply orb_false_iff in Hn as [Hc Hl].
  cbn [app takewhile]. destruct (is_space c); [|reflexivity].
  cbn [existsb negb orb] in *. rewrite Hc. now apply IH.
Qed.

(** The pattern at the header of a section: the group is the block and
    the match ends where the block ends. *)
Lemma first_match_section (n : nat) (ls : list str) (tail : str) :
  1 <= n ->
  forallb no_newline ls = true ->
  match ls with l :: _ => visible l | [] => false end = true ->
  block_open ls tail = true ->
  terminator_at tail = true ->
  first_match geometry_pattern (None, section_text n ls ++ tail)
  = Some (Some (unlines ls), tail).
Proof.
  intros Hn Hnl Hv Hopen Hterm. unfold geometry_pattern, section_text.
  replace ((COORD_HEADER ++ [nl] ++ repeat "-"%char n ++ [nl] ++ unlines ls)
             ++ tail)
    with (COORD_HEADER ++ nl :: repeat "-"%char n ++ nl :: unlines ls ++ tail)
    by (repeat (rewrite <- app_assoc; cbn [app]); reflexivity).
  apply (first_match_Seq _ _ _
           (None, nl :: repeat "-"%char n ++ nl :: unlines ls ++ tail)).
  { unfold first_match. now rewrite m_Lit_app. }
  apply first_match_rule; [exact Hn | |now apply first_match_block].
  destruct ls as [|l ls]; [discriminate|].
  cbn [forallb] in Hnl. apply andb_true_iff in Hnl as [Hl _].
  rewrite unlines_cons. now apply visible_first_line.
Qed.

(** ** All the sections of a report *)

Lemma section_text_longer (n : nat) (ls : list str) (gap tail : str) :
  length tail < length (gap ++ section_text n ls ++ tail).
Proof.
  unfold section_text. rewrite !length_app. simpl. lia.
Qed.

Lemma findall_sections (final : str) (secs : list section) :
  sections_ok secs final = true ->
  forall fuel, length (render secs final) < fuel ->
  findall_fuel fuel geometry_pattern (render secs final) = blocks secs.
Proof.
  induction secs as [|s rest IH]; intros Hok fuel Hf.
  - destruct fuel as [|n]; [lia|]. cbn [findall_fuel render blocks map].
    cbn [sections_ok] in Hok. apply negb_true_iff in Hok.
    unfold geometry_pattern. rewrite re_search_none; [reflexivity|].
    unfold str_in in Hok. destruct (str_find COORD_HEADER final);
      [discriminate | reflexivity].
  - destruct fuel as [|n]; [lia|].
    cbn [sections_ok] in Hok.
    apply andb_true_iff in Hok as [Hok Hrest].
    apply andb_true_iff in Hok as [Hok Hterm].
    apply andb_true_iff in Hok as [Hok Hopen].
    apply andb_true_iff in Hok as [Hok Hvis].
    apply andb_true_iff in Hok as [Hok Hnl].
    apply andb_true_iff in Hok as [Hfind Hrule].
    apply Nat.leb_le in Hrule.
    cbn [render] in *.
    set (tail := render rest final) in *.
    assert (Hs : re_search geometry_pattern
                   (sec_gap s ++ section_text (sec_rule s) (sec_lines s) ++ tail)
                 = Some (Some (unlines (sec_lines s)), tail)).
    { unfold geometry_pattern at 1. rewrite re_search_skip.
      - fold geometry_pattern. apply re_search_first.
        now apply first_match_section.
      - destruct (str_find COORD_HEADER _) as [k|]; [|discriminate].
        apply Nat.eqb_eq in Hfind. now subst k. }
    cbn [findall_fuel]. rewrite Hs. cbn [snd group1 fst blocks map].
    replace (length tail <? length (sec_gap s ++ section_text (sec_rule s)
                                             (sec_lines s) ++ tail))
      with true
      by (symmetry; apply Nat.ltb_lt, section_text_longer).
    f_equal. apply (IH Hrest).
    pose proof (section_text_longer (sec_rule s) (sec_lines s) (sec_gap s) tail).
    lia.
Qed.

(** C1, on a text where the code misses it.  [open_ended_report] has two
    sections of Cartesian coordinates; its second block is followed by a
    single empty line and by plain text up to the end.  The only match of
    the pattern is the first section, and the atoms returned are those of
    the first section, not of the last. *)
Lemma last_section_missed :
  open_ended_report
  = lit "---" ++ [nl]
    ++ lit "CARTESIAN COORDINATES (ANGSTROEM)" ++ [nl]
    ++ lit "---------------------------------" ++ [nl]
    ++ lit "  O   0.000000   0.000000   0.000000" ++ [nl]
    ++ [nl]
    ++ lit "---" ++ [nl]
    ++ lit "CARTESIAN COORDINATES (ANGSTROEM)" ++ [nl]
    ++ lit "---------------------------------" ++ [nl]
    ++ lit "  H   1.000000   1.000000   1.000000" ++ [nl]
    ++ [nl]
    ++ lit "Total run time: 5 sec" ++ [nl]
  /\ re_findall geometry_pattern open_ended_report
     = [lit "  O   0.000000   0.000000   0.000000" ++ [nl] ++ [nl]]
  /\ parse_geometry open_ended_report
     = lit "O       0.000000      0.000000      0.000000"
  /\ geometry_of_block
       (lit "  H   1.000000   1.000000   1.000000" ++ [nl] ++ [nl])
     = lit "H       1.000000      1.000000      1.000000"
  /\ parse_geometry open_ended_report
     <> geometry_of_block
          (lit "  H   1.000000   1.000000   1.000000" ++ [nl] ++ [nl]).
Proof.
  split; [reflexivity|]. split; [vm_compute; reflexivity|].
  split; [vm_compute; reflexivity|]. split; [vm_compute; reflexivity|].
  vm_compute. discriminate.
Qed.

Lemma rev_head_last (l : list (list ascii)) (b : list ascii) :
  rev (b :: l) = last (b :: l) [] :: rev (removelast (b :: l)).
Proof.
  assert (H : b :: l <> []) by discriminate.
  destruct (exists_last H) as [l' [x E]]. rewrite E.
  rewrite rev_app_distr, last_last, removelast_last. reflexivity.
Qed.

(** X16.  The geometry is read from the last match of the section
    pattern, and is [Not found] when there is no match.  In a report made
    of sections that the pattern reads one by one ([sections_ok]: in the
    text from a section on, the header first occurs at the header of that
    section; the rule has a dash; the lines of the block hold no newline,
    the first one is not blank, none starts a terminator, and a terminator
    follows the block; the header is not in the text after the last
    block), the matches are the blocks of the sections in order, and the
    geometry is read from the block of the last section; with two
    sections, from the block of the second. *)
Theorem last_section_selected :
  (forall content : str,
      parse_geometry content
      = match re_findall geometry_pattern content with
        | [] => NOT_FOUND
        | b :: bs => geometry_of_block (last (b :: bs) [])
        end)
  /\ (forall (secs : list section) (s : section) (final : str),
         sections_ok (secs ++ [s]) final = true ->
         re_findall geometry_pattern (render (secs ++ [s]) final)
         = blocks (secs ++ [s])
         /\ parse_geometry (render (secs ++ [s]) final)
            = geometry_of_block (unlines (sec_lines s)))
  /\ (forall (s1 s2 : section) (final : str),
         sections_ok [s1; s2] final = true ->
         parse_geometry (render [s1; s2] final)
         = geometry_of_block (unlines (sec_lines s2))).
Proof.
  assert (G : forall (secs : list section) (s : section) (final : str),
             sections_ok (secs ++ [s]) final = true ->
             re_findall geometry_pattern (render (secs ++ [s]) final)
             = blocks (secs ++ [s])
             /\ parse_geometry (render (secs ++ [s]) final)
                = geometry_of_block (unlines (sec_lines s))).
  { intros secs s final Hok.
    assert (E : re_findall geometry_pattern (render (secs ++ [s]) final)
                = blocks (secs ++ [s])).
    { unfold re_findall. apply findall_sections; [exact Hok | lia]. }
    split; [exact E|].
    unfold parse_geometry. rewrite E. unfold blocks.
    rewrite map_app, rev_app_distr. reflexivity. }
  split; [|split].
  - intros content. unfold parse_geometry.
    destruct (re_findall geometry_pattern content) as [|b bs];
      [reflexivity|].
    now rewrite rev_head_last.
  - exact G.
  - intros s1 s2 final Hok. exact (proj2 (G [s1] s2 final Hok)).
Qed.

Lemma last_section_selected_witness :
  parse_geometry (render sample_sections sample_final)
  = lit "O       0.000000      0.000000      0.117790" ++ [nl]
    ++ lit "H       0.000000      0.755453     -0.471161" ++ [nl]
    ++ lit "H       0.000000     -0.755453     -0.471161".
Proof.
  refine (eq_trans
            (proj2 (proj2 last_section_selected)
                   (nth 0 sample_sections
                        {| sec_gap := []; sec_rule := 0; sec_lines := [] |})
                   (nth 1 sample_sections
                        {| sec_gap := []; sec_rule := 0; sec_lines := [] |})
                   sample_final _)
            _).
  - vm_compute. reflexivity.
  - vm_compute. reflexivity.
Defined.

(** ** More on [strip] and [split] *)

Lemma dropwhile_all (p : ascii -> bool) (s : str) :
  forallb p s = true -> dropwhile p s = [].
Proof.
  induction s as [|c s IH]; [reflexivity|]. simpl. intros H.
  apply andb_true_iff in H as [Hc Hs]. rewrite Hc. now apply IH.
Qed.

Lemma dropwhile_nil (p : ascii -> bool) (s : str) :
  dropwhile p s = [] -> forallb p s = true.
Proof.
  induction s as [|c s IH]; [reflexivity|]. simpl.
  destruct (p c); [exact IH | discriminate].
Qed.

Lemma dropwhile_head (p : ascii -> bool) (s t : str) (c : ascii) :
  dropwhile p s = c :: t -> p c = false.
Proof.
  induction s as [|a s IH]; [discriminate|]. simpl.
  destruct (p a) eqn:E; [exact IH|]. intros [= -> _]. exact E.
Qed.

Lemma dropwhile_snoc (p : ascii -> bool) (l : str) (c : ascii) :
  p c = false -> dropwhile p (l ++ [c]) = dropwhile p l ++ [c].
Proof.
  intros Hc. induction l as [|a l IH]; simpl.
  - now rewrite Hc.
  - destruct (p a); [exact IH | reflexivity].
Qed.

Lemma forallb_rev (p : ascii -> bool) (l : str) :
  forallb p (rev l) = forallb p l.
Proof.
  induction l as [|c l IH]; [reflexivity|].
  simpl. rewrite forallb_app, IH. simpl. rewrite andb_true_r.
  apply andb_comm.
Qed.

Lemma strip_rstrip (s : str) : strip s = rstrip (dropwhile is_space s).
Proof. reflexivity. Qed.

Lemma rstrip_cons (c : ascii) (s : str) :
  rstrip (c :: s)
  = match rstrip s with
    | [] => if is_space c then [] else [c]
    | u => c :: u
    end.
Proof.
  unfold rstrip. cbn [rev].
  destruct (dropwhile is_space (rev s)) as [|a l] eqn:E.
  - apply dropwhile_nil in E. cbn [rev].
    destruct (is_space c) eqn:Hc.
    + rewrite dropwhile_all; [reflexivity|].
      rewrite forallb_app, E. simpl. now rewrite Hc.
    + rewrite dropwhile_snoc, dropwhile_all by assumption. reflexivity.
  - assert (Ha : is_space a = false) by exact (dropwhile_head _ _ _ _ E).
    assert (E' : dropwhile is_space (rev s ++ [c]) = (a :: l) ++ [c]).
    { clear Ha. revert E. generalize (rev s) as r.
      induction r as [|b r IH]; [discriminate|]. simpl.
      destruct (is_space b); [exact IH|]. intros [= -> ->]. reflexivity. }
    rewrite E'. rewrite rev_app_distr. simpl.
    destruct (rev l ++ [a]) eqn:F; [|reflexivity].
    destruct (rev l); discriminate.
Qed.

Lemma rstrip_nil_inv (s : str) : rstrip s = [] -> forallb is_space s = true.
Proof.
  unfold rstrip. intros H.
  assert (E : dropwhile is_space (rev s) = []).
  { destruct (dropwhile is_space (rev s)) as [|a l]; [reflexivity|].
    simpl in H. destruct (rev l); discriminate. }
  apply dropwhile_nil in E. now rewrite forallb_rev in E.
Qed.

Lemma visible_forallb (s : str) : visible s = negb (forallb is_space s).
Proof.
  unfold visible. induction s as [|c s IH]; [reflexivity|].
  simpl. rewrite IH. now destruct (is_space c).
Qed.

(** [strip] leaves nothing exactly when the text has no character that is
    not white space. *)
Lemma strip_empty (s : str) : (length (strip s) =? 0) = negb (visible s).
Proof.
  rewrite visible_forallb, negb_involutive, strip_rstrip.
  destruct (forallb is_space s) eqn:E.
  - rewrite (dropwhile_all _ _ E). reflexivity.
  - destruct (rstrip (dropwhile is_space s)) as [|c t] eqn:F; [|reflexivity].
    apply rstrip_nil_inv in F.
    destruct (dropwhile is_space s) as [|a u] eqn:G.
    + apply dropwhile_nil in G. congruence.
    + apply dropwhile_head in G. simpl in F. now rewrite G in F.
Qed.

Lemma split_ws_aux_blank (cur s : str) :
  forallb is_space s = true ->
  split_ws_aux cur s = match cur with [] => [] | _ => [rev cur] end.
Proof.
  revert cur. induction s as [|c s IH]; intros cur H; [reflexivity|].
  simpl in H. apply andb_true_iff in H as [Hc Hs].
  cbn [split_ws_aux]. rewrite Hc. destruct cur as [|a cur].
  - now apply IH.
  - now rewrite (IH [] Hs).
Qed.

Lemma split_ws_aux_skip (sp s : str) :
  forallb is_space sp = true ->
  split_ws_aux [] (sp ++ s) = split_ws_aux [] s.
Proof.
  induction sp as [|c sp IH]; intros H; [reflexivity|].
  simpl in H. apply andb_true_iff in H as [Hc Hs].
  cbn [app split_ws_aux]. rewrite Hc. now apply IH.
Qed.

Lemma split_ws_aux_token (cur t s : str) :
  forallb not_space t = true ->
  split_ws_aux cur (t ++ s) = split_ws_aux (rev t ++ cur) s.
Proof.
  revert cur. induction t as [|c t IH]; intros cur H; [reflexivity|].
  simpl in H. apply andb_true_iff in H as [Hc Ht].
  unfold not_space in Hc. apply negb_true_iff in Hc.
  cbn [app split_ws_aux rev]. rewrite Hc, (IH (c :: cur) Ht).
  now rewrite <- app_assoc.
Qed.

(** With a run being read, the first field is the run and what follows up
    to the next white space. *)
Lemma split_ws_aux_cur (cur s : str) :
  cur <> [] ->
  split_ws_aux cur s
  = (rev cur ++ takewhile not_space s)
      :: split_ws_aux [] (dropwhile not_space s).
Proof.
  revert cur. induction s as [|c s IH]; intros cur Hne.
  - destruct cur; [contradiction|]. cbn [split_ws_aux takewhile dropwhile].
    now rewrite app_nil_r.
  - cbn [split_ws_aux takewhile dropwhile]. unfold not_space at 1 3.
    destruct (is_space c) eqn:Hc; cbn [negb].
    + destruct cur; [contradiction|].
      cbn [split_ws_aux]. rewrite Hc, app_nil_r. reflexivity.
    + rewrite IH by discriminate. cbn [rev]. now rewrite <- app_assoc.
Qed.

Lemma split_ws_dropwhile (s : str) :
  split_ws (dropwhile is_space s) = split_ws s.
Proof.
  unfold split_ws. induction s as [|c s IH]; [reflexivity|].
  cbn [dropwhile split_ws_aux]. destruct (is_space c) eqn:Hc; [exact IH|].
  cbn [split_ws_aux]. now rewrite Hc.
Qed.

Lemma split_ws_aux_rstrip (cur s : str) :
  split_ws_aux cur (rstrip s) = split_ws_aux cur s.
Proof.
  revert cur. induction s as [|c s IH]; intros cur; [reflexivity|].
  rewrite rstrip_cons. destruct (rstrip s) as [|a u] eqn:E.
  - apply rstrip_nil_inv in E.
    destruct (is_space c) eqn:Hc; cbn [split_ws_aux]; rewrite Hc.
    + rewrite (split_ws_aux_blank [] s E).
      destruct cur; reflexivity.
    + now rewrite (split_ws_aux_blank (c :: cur) s E).
  - assert (IH' : forall cur', split_ws_aux cur' (a :: u) = split_ws_aux cur' s)
      by exact IH.
    rewrite <- E in IH' |- *. cbn [split_ws_aux]. clear IH.
    rename IH' into IH. destruct (is_space c).
    + rewrite (IH []). reflexivity.
    + apply IH.
Qed.

(** Stripping a line does not change its fields. *)
Lemma split_ws_strip (s : str) : split_ws (strip s) = split_ws s.
Proof.
  rewrite strip_rstrip. unfold split_ws at 1.
  rewrite split_ws_aux_rstrip. apply split_ws_dropwhile.
Qed.

Lemma split_ws_aux_fields (s cur : str) :
  forallb not_space cur = true ->
  forall t, In t (split_ws_aux cur s) ->
            t <> [] /\ forallb not_space t = true.
Proof.
  revert cur. induction s as [|c s IH]; intros cur Hcur t Ht.
  - destruct cur as [|a cur]; [contradiction|].
    destruct Ht as [<-|[]]. split.
    + intros E. apply (f_equal (@length ascii)) in E.
      rewrite length_rev in E. discriminate.
    + now rewrite forallb_rev.
  - cbn [split_ws_aux] in Ht. destruct (is_space c) eqn:Hc.
    + destruct cur as [|a cur].
      * now apply (IH [] eq_refl).
      * destruct Ht as [<-|Ht]; [|now apply (IH [] eq_refl)]. split.
        -- intros E. apply (f_equal (@length ascii)) in E.
           rewrite length_rev in E. discriminate.
        -- now rewrite forallb_rev.
    + apply (IH (c :: cur)); [|exact Ht].
      simpl. unfold not_space at 1. now rewrite Hc.
Qed.

(** A field is never empty and holds no white space. *)
Lemma split_ws_fields (s t : str) :
  In t (split_ws s) -> t <> [] /\ forallb not_space t = true.
Proof. apply (split_ws_aux_fields s [] eq_refl). Qed.

Lemma split_ws_blank (s : str) :
  visible s = false -> split_ws s = [].
Proof.
  rewrite visible_forallb. intros H. apply negb_false_iff in H.
  unfold split_ws. now rewrite split_ws_aux_blank.
Qed.

(** The stripped line starts as its first field does. *)
Lemma strip_first_field (s e : str) (ts : list str) :
  split_ws s = e :: ts ->
  exists c e' u, e = c :: e' /\ strip s = c :: u /\ is_space c = false.
Proof.
  intros H. rewrite <- split_ws_dropwhile in H. rewrite strip_rstrip.
  destruct (dropwhile is_space s) as [|c t] eqn:E; [discriminate|].
  pose proof (dropwhile_head _ _ _ _ E) as Hc.
  unfold split_ws in H. cbn [split_ws_aux] in H. rewrite Hc in H.
  rewrite split_ws_aux_cur in H by discriminate.
  injection H as He _. cbn [rev app] in He.
  exists c, (takewhile not_space t).
  rewrite rstrip_cons, Hc.
  destruct (rstrip t) as [|a u]; eexists; (split; [now symmetry|]);
    split; reflexivity || exact Hc.
Qed.

(** ** The rule for a line, on its fields *)

Lemma keeps_fields (l : str) :
  keeps l
  = match split_ws l with
    | e :: x :: y :: z :: _ =>
        negb (startswith (lit "-") e)
        && (float_ok x && float_ok y && float_ok z)
    | _ => false
    end.
Proof.
  unfold keeps. cbv zeta. rewrite split_ws_strip, strip_empty.
  destruct (split_ws l) as [|e ts] eqn:E.
  - cbn [length Nat.leb]. now rewrite !andb_false_r.
  - destruct (strip_first_field l e ts E) as [c [e' [u [-> [Hs Hc]]]]].
    assert (Hv : visible l = true).
    { destruct (visible l) eqn:V; [reflexivity|].
      rewrite (split_ws_blank l V) in E. discriminate. }
    rewrite Hv, Hs. cbn [negb andb].
    change (startswith (lit "-") (c :: u))
      with (Ascii.eqb "-"%char c && true).
    change (startswith (lit "-") (c :: e'))
      with (Ascii.eqb "-"%char c && true).
    destruct ts as [|x [|y [|z more]]];
      cbn [length Nat.leb nth]; rewrite ?andb_false_r, ?andb_true_r;
      reflexivity.
Qed.

Lemma format_line_fields (l : str) : format_line l = format_atom (split_ws l).
Proof. unfold format_line. now rewrite split_ws_strip. Qed.

(** ** The lines the parser writes *)

Lemma split_ws_token_sep (t sp s : str) :
  t <> [] -> forallb not_space t = true ->
  sp <> [] -> forallb is_space sp = true ->
  split_ws_aux [] (t ++ sp ++ s) = t :: split_ws_aux [] s.
Proof.
  intros Ht Hnt Hsp Hs.
  rewrite (split_ws_aux_token [] t _ Hnt), app_nil_r.
  destruct sp as [|c sp]; [contradiction|].
  simpl in Hs. apply andb_true_iff in Hs as [Hc Hs].
  cbn [app split_ws_aux]. rewrite Hc.
  destruct (rev t) eqn:E.
  - apply (f_equal (@length ascii)) in E. rewrite length_rev in E.
    destruct t; [contradiction | discriminate].
  - rewrite <- E, rev_involutive, (split_ws_aux_skip sp s Hs). reflexivity.
Qed.

Lemma split_ws_token_end (t : str) :
  t <> [] -> forallb not_space t = true -> split_ws_aux [] t = [t].
Proof.
  intros Ht Hnt. rewrite <- (app_nil_r t) at 1.
  rewrite (split_ws_aux_token [] t [] Hnt), app_nil_r.
  cbn [split_ws_aux]. destruct (rev t) eqn:E.
  - apply (f_equal (@length ascii)) in E. rewrite length_rev in E.
    destruct t; [contradiction | discriminate].
  - now rewrite <- E, rev_involutive.
Qed.

Lemma format_atom_shape (e x y z : str) (more : list str) :
  format_atom (e :: x :: y :: z :: more)
  = e ++ (repeat " "%char (2 - length e) ++ lit "  "
          ++ repeat " "%char (12 - length x))
      ++ x ++ (lit "  " ++ repeat " "%char (12 - length y))
      ++ y ++ (lit "  " ++ repeat " "%char (12 - length z))
      ++ z.
Proof.
  unfold format_atom, ljust, rjust. cbn [nth].
  repeat (rewrite <- app_assoc; cbn [app]). reflexivity.
Qed.

Lemma spaces_blank (n : nat) : forallb is_space (repeat " "%char n) = true.
Proof. now apply forallb_repeat. Qed.

Lemma split_ws_format_atom (e x y z : str) (more : list str) :
  (forall t, In t [e; x; y; z] -> t <> [] /\ forallb not_space t = true) ->
  split_ws (format_atom (e :: x :: y :: z :: more)) = [e; x; y; z].
Proof.
  intros H.
  destruct (H e) as [He1 He2]; [simpl; tauto|].
  destruct (H x) as [Hx1 Hx2]; [simpl; tauto|].
  destruct (H y) as [Hy1 Hy2]; [simpl; tauto|].
  destruct (H z) as [Hz1 Hz2]; [simpl; tauto|].
  rewrite format_atom_shape. unfold split_ws.
  rewrite split_ws_token_sep; try assumption.
  - rewrite split_ws_token_sep; try assumption; [|discriminate|].
    + rewrite split_ws_token_sep; try assumption; [|discriminate|].
      * now rewrite split_ws_token_end.
      * cbn [lit list_ascii_of_string app forallb]. apply spaces_blank.
    + cbn [lit list_ascii_of_string app forallb]. apply spaces_blank.
  - intros E. apply app_eq_nil in E as [_ E]. discriminate.
  - rewrite !forallb_app, !spaces_blank. reflexivity.
Qed.

Lemma last_app_nonempty (a b : str) (d : ascii) :
  b <> [] -> last (a ++ b) d = last b d.
Proof.
  intros Hb. destruct (exists_last Hb) as [b' [c ->]].
  now rewrite app_assoc, !last_last.
Qed.

Lemma last_default (s : str) (d d' : ascii) :
  s <> [] -> last s d = last s d'.
Proof.
  intros H. destruct (exists_last H) as [s' [c ->]]. now rewrite !last_last.
Qed.

Lemma not_space_last (t : str) (d : ascii) :
  t <> [] -> forallb not_space t = true -> is_space (last t d) = false.
Proof.
  intros Ht H. destruct (exists_last Ht) as [t' [c ->]].
  rewrite last_last. rewrite forallb_app in H.
  apply andb_true_iff in H as [_ H]. simpl in H.
  unfold not_space in H. now destruct (is_space c).
Qed.

Lemma trimmed_format_atom (e x y z : str) (more : list str) :
  (forall t, In t [e; x; y; z] -> t <> [] /\ forallb not_space t = true) ->
  trimmed (format_atom (e :: x :: y :: z :: more)) = true.
Proof.
  intros H.
  destruct (H e) as [He1 He2]; [simpl; tauto|].
  destruct (H z) as [Hz1 Hz2]; [simpl; tauto|].
  rewrite format_atom_shape. destruct e as [|c e]; [contradiction|].
  cbn [app trimmed]. simpl in He2. apply andb_true_iff in He2 as [Hc _].
  unfold not_space in Hc. rewrite Hc. cbn [andb].
  change (c :: e ++ ?r) with ((c :: e) ++ r).
  rewrite !app_assoc, (last_app_nonempty _ z c Hz1).
  now rewrite (not_space_last z c Hz1 Hz2).
Qed.

Lemma not_space_no_newline (t : str) :
  forallb not_space t = true -> existsb is_nl t = false.
Proof.
  induction t as [|c t IH]; [reflexivity|]. simpl. intros H.
  apply andb_true_iff in H as [Hc Ht]. rewrite (IH Ht), orb_false_r.
  destruct (is_nl c) eqn:E; [|reflexivity].
  apply is_nl_space in E. unfold not_space in Hc. now rewrite E in Hc.
Qed.

Lemma spaces_no_newline (n : nat) : existsb is_nl (repeat " "%char n) = false.
Proof. induction n; [reflexivity | exact IHn]. Qed.

Lemma no_newline_format_atom (e x y z : str) (more : list str) :
  (forall t, In t [e; x; y; z] -> t <> [] /\ forallb not_space t = true) ->
  no_newline (format_atom (e :: x :: y :: z :: more)) = true.
Proof.
  intros H.
  destruct (H e) as [_ He]; [simpl; tauto|].
  destruct (H x) as [_ Hx]; [simpl; tauto|].
  destruct (H y) as [_ Hy]; [simpl; tauto|].
  destruct (H z) as [_ Hz]; [simpl; tauto|].
  rewrite format_atom_shape. unfold no_newline.
  rewrite !existsb_app, !spaces_no_newline.
  rewrite (not_space_no_newline e He), (not_space_no_newline x Hx),
    (not_space_no_newline y Hy), (not_space_no_newline z Hz).
  reflexivity.
Qed.

Lemma format_atom_length (e x y z : str) (more : list str) :
  44 <= length (format_atom (e :: x :: y :: z :: more)).
Proof.
  unfold format_atom. cbn [nth].
  rewrite !length_app, ljust_length, !rjust_length.
  change (length (lit "  ")) with 2. lia.
Qed.

(** A kept line is written as a line that the rule keeps again and that
    is written back unchanged. *)
Lemma kept_line_written (l : str) :
  keeps l = true ->
  atom_line_ok (format_line l) = true
  /\ keeps (format_line l) = true
  /\ format_line (format_line l) = format_line l.
Proof.
  intros Hk. rewrite keeps_fields in Hk.
  destruct (split_ws l) as [|e [|x [|y [|z more]]]] eqn:E; try discriminate.
  assert (Hf : forall t, In t [e; x; y; z] ->
                         t <> [] /\ forallb not_space t = true).
  { intros t Ht. apply (split_ws_fields l). rewrite E.
    simpl in Ht |- *. tauto. }
  assert (Hs : split_ws (format_line l) = [e; x; y; z]).
  { rewrite format_line_fields, E. now apply split_ws_format_atom. }
  split; [|split].
  - unfold atom_line_ok. rewrite Hs, Hk.
    rewrite format_line_fields, E.
    rewrite (no_newline_format_atom _ _ _ _ _ Hf).
    rewrite (trimmed_format_atom _ _ _ _ _ Hf).
    pose proof (format_atom_length e x y z more) as L.
    apply Nat.leb_le in L. now rewrite L.
  - now rewrite keeps_fields, Hs.
  - rewrite (format_line_fields (format_line l)), Hs.
    rewrite format_line_fields, E. reflexivity.
Qed.

Lemma strip_trimmed (s : str) : trimmed s = true -> strip s = s.
Proof.
  destruct s as [|c s]; [discriminate|]. cbn [trimmed]. intros H.
  apply andb_true_iff in H as [Hc Hl].
  apply negb_true_iff in Hc, Hl.
  rewrite strip_rstrip. cbn [dropwhile]. rewrite Hc. unfold rstrip.
  assert (Hne : c :: s <> []) by discriminate.
  destruct (exists_last Hne) as [s0 [a E]]. rewrite E in *.
  rewrite last_last in Hl. rewrite rev_app_distr. cbn [rev app dropwhile].
  rewrite Hl. cbn [rev]. now rewrite rev_involutive.
Qed.

Lemma trimmed_join (l : str) (G : list str) :
  forallb trimmed (l :: G) = true -> trimmed (join [nl] (l :: G)) = true.
Proof.
  revert l. induction G as [|l' G IH]; intros l H.
  - simpl in H. now rewrite andb_true_r in H.
  - cbn [forallb] in H. apply andb_true_iff in H as [Hl HG].
    specialize (IH l' HG).
    change (join [nl] (l :: l' :: G)) with (l ++ [nl] ++ join [nl] (l' :: G)).
    set (J := join [nl] (l' :: G)) in *.
    destruct l as [|c l]; [discriminate|].
    destruct J as [|d J'] eqn:EJ; [discriminate|].
    cbn [trimmed app] in Hl, IH |- *.
    apply andb_true_iff in Hl as [Hc _]. rewrite Hc. cbn [andb].
    apply andb_true_iff in IH as [_ Hd].
    replace (c :: l ++ nl :: d :: J') with (((c :: l) ++ [nl]) ++ d :: J')
      by (now rewrite <- app_assoc).
    rewrite last_app_nonempty by discriminate.
    now rewrite (last_default (d :: J') c d) by discriminate.
Qed.

Lemma split_nl_join (l : str) (G : list str) :
  forallb no_newline (l :: G) = true ->
  split_nl (join [nl] (l :: G)) = l :: G.
Proof.
  revert l. induction G as [|l' G IH]; intros l H.
  - simpl in H. rewrite andb_true_r in H. unfold no_newline in H.
    apply negb_true_iff in H. cbn [join].
    induction l as [|c l IHl]; [reflexivity|].
    simpl in H. apply orb_false_iff in H as [Hc Hl].
    cbn [split_nl]. now rewrite Hc, (IHl Hl).
  - cbn [forallb] in H. apply andb_true_iff in H as [Hl HG].
    change (join [nl] (l :: l' :: G)) with (l ++ nl :: join [nl] (l' :: G)).
    unfold no_newline in Hl. apply negb_true_iff in Hl.
    rewrite (split_nl_line l _ Hl). f_equal. now apply IH.
Qed.

Lemma atom_lines_of_eq (t : str) :
  atom_lines_of t = map format_line (filter keeps (split_nl t)).
Proof. unfold atom_lines_of. now rewrite fold_atom_step. Qed.

Lemma atom_line_ok_parts (f : str) :
  atom_line_ok f = true -> no_newline f = true /\ trimmed f = true.
Proof.
  unfold atom_line_ok. intros H.
  apply andb_true_iff in H as [H Ht]. apply andb_true_iff in H as [H Hn].
  now split.
Qed.

(** A geometry made of written lines is read back as itself. *)
Lemma geometry_of_written (l : str) (G : list str) :
  (forall f, In f (l :: G) ->
             atom_line_ok f = true /\ keeps f = true /\ format_line f = f) ->
  geometry_of_block (join [nl] (l :: G)) = join [nl] (l :: G).
Proof.
  intros H.
  assert (Ht : forallb trimmed (l :: G) = true).
  { apply forallb_forall. intros f Hf.
    now apply atom_line_ok_parts, (H f Hf). }
  assert (Hn : forallb no_newline (l :: G) = true).
  { apply forallb_forall. intros f Hf.
    now apply atom_line_ok_parts, (H f Hf). }
  unfold geometry_of_block.
  rewrite (strip_trimmed _ (trimmed_join l G Ht)), atom_lines_of_eq.
  rewrite (split_nl_join l G Hn).
  assert (Hk : filter keeps (l :: G) = l :: G).
  { apply forallb_filter_id. apply forallb_forall. intros f Hf.
    now apply (H f Hf). }
  rewrite Hk.
  assert (Hm : map format_line (l :: G) = l :: G).
  { rewrite <- (map_id (l :: G)) at 2. apply map_ext_in.
    intros f Hf. now apply (H f Hf). }
  rewrite Hm. reflexivity.
Qed.

Lemma written_lines (t f : str) :
  In f (atom_lines_of t) ->
  atom_line_ok f = true /\ keeps f = true /\ format_line f = f.
Proof.
  rewrite atom_lines_of_eq. intros H.
  apply in_map_iff in H as [l [<- Hl]]. apply filter_In in Hl as [_ Hk].
  now apply kept_line_written.
Qed.

Lemma geometry_of_block_lines (b : str) :
  geometry_of_block b = NOT_FOUND
  \/ forallb atom_line_ok (split_nl (geometry_of_block b)) = true.
Proof.
  unfold geometry_of_block.
  destruct (atom_lines_of (strip b)) as [|l G] eqn:E; [now left|]. right.
  assert (H : forall f, In f (l :: G) ->
                atom_line_ok f = true /\ keeps f = true /\ format_line f = f).
  { intros f Hf. apply (written_lines (strip b)). now rewrite E. }
  rewrite split_nl_join.
  - apply forallb_forall. intros f Hf. now apply (H f Hf).
  - apply forallb_forall. intros f Hf.
    now apply atom_line_ok_parts, (H f Hf).
Qed.

Lemma parse_geometry_of_block (content : str) :
  parse_geometry content = NOT_FOUND
  \/ exists b, parse_geometry content = geometry_of_block b.
Proof.
  unfold parse_geometry.
  destruct (rev (re_findall geometry_pattern content)) as [|b bs];
    [now left | right; now exists b].
Qed.

(** X1.  Every line of a geometry the parser returns has exactly four
    fields, the first not starting with a dash and the other three
    accepted by [float], is at least 44 characters long and has no white
    space at either end; otherwise the geometry is [Not found]. *)
Theorem parse_geometry_lines :
  forall content : str,
    parse_geometry content = NOT_FOUND
    \/ forallb atom_line_ok (split_nl (parse_geometry content)) = true.
Proof.
  intros content.
  destruct (parse_geometry_of_block content) as [H|[b H]]; [now left|].
  rewrite H. apply geometry_of_block_lines.
Qed.

(** X2.  A geometry the parser has written is read back unchanged, from a
    block and from a whole report; [Not found] is read back as
    [Not found]. *)
Theorem geometry_read_back :
  (forall b : str,
      geometry_of_block (geometry_of_block b) = geometry_of_block b)
  /\ (forall content : str,
         geometry_of_block (parse_geometry content) = parse_geometry content).
Proof.
  assert (G : forall b : str,
             geometry_of_block (geometry_of_block b) = geometry_of_block b).
  { intros b. unfold geometry_of_block at 2 3.
    destruct (atom_lines_of (strip b)) as [|l G] eqn:E; [reflexivity|].
    apply geometry_of_written. intros f Hf.
    apply (written_lines (strip b)). now rewrite E. }
  split; [exact G|]. intros content.
  destruct (parse_geometry_of_block content) as [H|[b H]]; rewrite H.
  - reflexivity.
  - apply G.
Qed.

(** X3.  Whether a line is kept and how it is written depend on its fields
    only, not on the white space around and between them. *)
Theorem fields_decide :
  forall l1 l2 : str,
    split_ws l1 = split_ws l2 ->
    keeps l1 = keeps l2 /\ format_line l1 = format_line l2.
Proof.
  intros l1 l2 H. now rewrite !keeps_fields, !format_line_fields, H.
Qed.

Lemma fields_decide_witness :
  format_line ("009"%char :: lit "O   1.0" ++ "009"%char :: lit "2.0  3.0  ")
  = format_line (lit "O 1.0 2.0 3.0").
Proof.
  refine (proj2 (fields_decide
                   ("009"%char :: lit "O   1.0" ++ "009"%char
                               :: lit "2.0  3.0  ")
                   (lit "O 1.0 2.0 3.0") _)).
  reflexivity.
Defined.

(** ** The input builder on any text *)

Lemma split_nl_nonempty (s : str) : split_nl s <> [].
Proof.
  induction s as [|c s IH]; [discriminate|]. cbn [split_nl].
  destruct (is_nl c); [discriminate|].
  destruct (split_nl s); [contradiction | discriminate].
Qed.

Lemma split_nl_app (a b : str) :
  split_nl (a ++ nl :: b) = split_nl a ++ split_nl b.
Proof.
  induction a as [|c a IH]; [reflexivity|].
  cbn [app split_nl]. destruct (is_nl c).
  - now rewrite IH.
  - rewrite IH. pose proof (split_nl_nonempty a) as H.
    destruct (split_nl a); [contradiction | reflexivity].
Qed.

Lemma join_split_nl (s : str) : join [nl] (split_nl s) = s.
Proof.
  induction s as [|c s IH]; [reflexivity|]. cbn [split_nl].
  pose proof (split_nl_nonempty s) as H.
  destruct (is_nl c) eqn:Hc.
  - apply Ascii.eqb_eq in Hc. subst c.
    destruct (split_nl s) as [|l ls]; [contradiction|].
    change (join [nl] ([] :: l :: ls)) with (nl :: join [nl] (l :: ls)).
    now rewrite IH.
  - destruct (split_nl s) as [|l ls]; [contradiction|].
    destruct ls as [|l' ls].
    + cbn [join] in IH |- *. now rewrite IH.
    + change (join [nl] ((c :: l) :: l' :: ls))
        with (c :: join [nl] (l :: l' :: ls)).
      now rewrite IH.
Qed.

(** X4.  Whatever the geometry text, the lines of the document are the
    directive, an empty line, the opener, the lines of the text as they
    are (blank lines included), and the closing line; and the text is
    recovered from the document by joining with newlines the lines that
    lie after the first three and before the last two. *)
Theorem generate_orca_input_any_text :
  forall geometry method basis calculation_type : str,
    forallb no_newline [method; basis; calculation_type] = true ->
    split_nl (generate_orca_input geometry method basis calculation_type)
    = [directive_line method basis calculation_type; []; lit "* xyz 0 1"]
        ++ split_nl geometry ++ [lit "*"; []]
    /\ join [nl]
            (removelast
               (removelast
                  (skipn 3 (split_nl (generate_orca_input
                                        geometry method basis
                                        calculation_type)))))
       = geometry.
Proof.
  intros geometry method basis ct H.
  simpl in H. apply andb_true_iff in H as [Hm H].
  apply andb_true_iff in H as [Hb H]. apply andb_true_iff in H as [Hc _].
  unfold no_newline in Hm, Hb, Hc. apply negb_true_iff in Hm, Hb, Hc.
  assert (Hd : existsb is_nl (directive_line method basis ct) = false).
  { unfold directive_line. rewrite !existsb_app, Hm, Hb, Hc. reflexivity. }
  assert (E : split_nl (generate_orca_input geometry method basis ct)
              = [directive_line method basis ct; []; lit "* xyz 0 1"]
                  ++ split_nl geometry ++ [lit "*"; []]).
  { replace (generate_orca_input geometry method basis ct)
      with (directive_line method basis ct
            ++ nl :: [] ++ nl :: lit "* xyz 0 1" ++ nl :: geometry
            ++ nl :: lit "*" ++ nl :: [])
      by (unfold generate_orca_input, directive_line;
          repeat (rewrite <- app_assoc; cbn [app]); reflexivity).
    rewrite (split_nl_line _ _ Hd).
    rewrite (split_nl_line [] _ eq_refl).
    rewrite (split_nl_line (lit "* xyz 0 1") _ eq_refl).
    rewrite split_nl_app. reflexivity. }
  split; [exact E|]. rewrite E. cbn [app skipn].
  change [lit "*"; []] with ([lit "*"] ++ [[]]).
  rewrite app_assoc, removelast_last, removelast_last.
  apply join_split_nl.
Qed.

Lemma generate_orca_input_any_text_witness :
  split_nl (generate_orca_input
              (lit "O 0.0 0.0 0.0" ++ [nl] ++ [nl] ++ lit "H 0.96 0.0 0.0"
               ++ [nl])
              default_method default_basis default_calculation_type)
  = [lit "! B3LYP def2-SVP Opt"; []; lit "* xyz 0 1"; lit "O 0.0 0.0 0.0";
     []; lit "H 0.96 0.0 0.0"; []; lit "*"; []].
Proof.
  refine (proj1 (generate_orca_input_any_text
                   (lit "O 0.0 0.0 0.0" ++ [nl] ++ [nl]
                    ++ lit "H 0.96 0.0 0.0" ++ [nl])
                   default_method default_basis default_calculation_type _)).
  reflexivity.
Defined.

(** ** The atom count *)

Lemma visible_cons (c : ascii) (s : str) :
  visible (c :: s) = not_space c || visible s.
Proof. reflexivity. Qed.

Lemma line_census_cons (c : ascii) (s : str) :
  line_census (c :: s)
  = if is_nl c
    then (false, (if fst (line_census s) then 1 else 0) + snd (line_census s))
    else (not_space c || fst (line_census s), snd (line_census s)).
Proof.
  unfold line_census. cbn [split_nl].
  pose proof (split_nl_nonempty s) as H.
  destruct (split_nl s) as [|l ls]; [contradiction|].
  destruct (is_nl c); cbn [fst snd filter].
  - destruct (visible l); reflexivity.
  - reflexivity.
Qed.

Lemma line_census_blank (s : str) :
  forallb is_space s = true -> line_census s = (false, 0).
Proof.
  induction s as [|c s IH]; [reflexivity|]. simpl. intros H.
  apply andb_true_iff in H as [Hc Hs].
  rewrite line_census_cons, (IH Hs). unfold not_space. rewrite Hc.
  destruct (is_nl c); reflexivity.
Qed.

Lemma line_census_rstrip (s : str) : line_census (rstrip s) = line_census s.
Proof.
  induction s as [|c s IH]; [reflexivity|].
  rewrite rstrip_cons. destruct (rstrip s) as [|a u] eqn:E.
  - apply rstrip_nil_inv in E.
    destruct (is_space c) eqn:Hc.
    + symmetry. apply line_census_blank. simpl. now rewrite Hc, E.
    + rewrite !line_census_cons, (line_census_blank s E).
      reflexivity.
  - rewrite (line_census_cons c (a :: u)), (line_census_cons c s), IH.
    reflexivity.
Qed.

Lemma visible_lines_census (s : str) :
  length (filter visible (split_nl s))
  = (if fst (line_census s) then 1 else 0) + snd (line_census s).
Proof.
  unfold line_census. pose proof (split_nl_nonempty s) as H.
  destruct (split_nl s) as [|l ls]; [contradiction|].
  cbn [filter fst snd]. destruct (visible l); reflexivity.
Qed.

Lemma visible_lines_dropwhile (s : str) :
  length (filter visible (split_nl (dropwhile is_space s)))
  = length (filter visible (split_nl s)).
Proof.
  induction s as [|c s IH]; [reflexivity|]. cbn [dropwhile].
  destruct (is_space c) eqn:Hc; [|reflexivity].
  rewrite IH, !visible_lines_census, line_census_cons.
  unfold not_space. rewrite Hc. cbn [negb orb].
  destruct (is_nl c); reflexivity.
Qed.

Lemma atom_count_eq (g : str) :
  atom_count g = length (filter visible (split_nl g)).
Proof.
  unfold atom_count. rewrite (filter_ext _ visible).
  - rewrite strip_rstrip, !visible_lines_census, line_census_rstrip.
    rewrite <- !visible_lines_census. apply visible_lines_dropwhile.
  - intros l. now rewrite strip_empty, negb_involutive.
Qed.

(** X5.  The number of atoms shown is the number of lines of the text, as
    typed, that are not blank; for N lines that are not blank, joined by
    newlines, it is N. *)
Theorem atom_count_visible_lines :
  (forall geometry_input : str,
      atom_count geometry_input
      = length (filter visible (split_nl geometry_input)))
  /\ (forall atoms : list str,
         forallb no_newline atoms = true ->
         forallb visible atoms = true ->
         atom_count (join [nl] atoms) = length atoms).
Proof.
  split; [exact atom_count_eq|]. intros atoms Hn Hv. rewrite atom_count_eq.
  destruct atoms as [|l atoms]; [reflexivity|].
  rewrite (split_nl_join l atoms Hn).
  now rewrite (forallb_filter_id _ _ Hv).
Qed.

Lemma atom_count_visible_lines_witness :
  atom_count (join [nl] [lit "O 0.0 0.0 0.0"; lit "  H 0.96 0.0 0.0";
                         lit "H -0.24 0.93 0.0 "])
  = 3.
Proof.
  refine (proj2 atom_count_visible_lines
                [lit "O 0.0 0.0 0.0"; lit "  H 0.96 0.0 0.0";
                 lit "H -0.24 0.93 0.0 "] _ _);
    reflexivity.
Defined.

Lemma visible_split_nl (s : str) :
  visible s = existsb visible (split_nl s).
Proof.
  induction s as [|c s IH]; [reflexivity|].
  rewrite visible_cons, IH. cbn [split_nl].
  pose proof (split_nl_nonempty s) as H.
  destruct (split_nl s) as [|l ls]; [contradiction|].
  destruct (is_nl c) eqn:Hn.
  - apply is_nl_space in Hn. unfold not_space. rewrite Hn. reflexivity.
  - cbn [existsb]. rewrite visible_cons. now rewrite orb_assoc.
Qed.


(** ** The installation check *)

(** X6.  The check answers [True] exactly when [which] completed with exit
    code 0 and printed something that is not only white space; in every
    other case in which it returns, the answer is [False] with the one
    message [NOT_INSTALLED]; a timeout or a missing [which] never raises,
    any other exception does. *)
Theorem check_orca_installation_cases :
  forall answer : which_answer,
    (check_orca_installation answer = Ok (true, INSTALLATION_FOUND)
     <-> exists stdout, answer = WhichCompleted 0 stdout
                        /\ visible stdout = true)
    /\ (forall b msg,
           check_orca_installation answer = Ok (b, msg) ->
           (b = true /\ msg = INSTALLATION_FOUND)
           \/ (b = false /\ msg = NOT_INSTALLED))
    /\ (forall e,
           check_orca_installation answer = Raise e <->
           exists msg, answer = WhichRaised (WhichOtherError msg)
                       /\ e = OtherException msg).
Proof.
  intros answer. split; [|split].
  - split.
    + destruct answer as [rc out|[m|m|m]]; cbn [check_orca_installation];
        try discriminate.
      rewrite strip_empty, negb_involutive.
      destruct (rc =? 0)%Z eqn:Hrc; [|discriminate].
      destruct (visible out) eqn:Hv; [|discriminate].
      intros _. apply Z.eqb_eq in Hrc. subst rc. now exists out.
    + intros [out [-> Hv]]. cbn [check_orca_installation].
      now rewrite strip_empty, Hv.
  - intros b msg. destruct answer as [rc out|[m|m|m]];
      cbn [check_orca_installation]; try discriminate.
    + destruct ((rc =? 0)%Z && negb (length (strip out) =? 0));
        intros [= <- <-]; [left | right]; now split.
    + intros [= <- <-]. right. now split.
    + intros [= <- <-]. right. now split.
  - intros e. split.
    + destruct answer as [rc out|[m|m|m]]; cbn [check_orca_installation];
        try discriminate.
      * destruct ((rc =? 0)%Z && negb (length (strip out) =? 0)); discriminate.
      * intros [= <-]. now exists m.
    + intros [msg [-> ->]]. reflexivity.
Qed.

Lemma check_orca_installation_cases_witness :
  check_orca_installation (WhichCompleted 0 (lit "/usr/bin/orca" ++ [nl]))
  = Ok (true, INSTALLATION_FOUND).
Proof.
  apply (proj2 (proj1 (check_orca_installation_cases
                         (WhichCompleted 0 (lit "/usr/bin/orca" ++ [nl]))))).
  exists (lit "/usr/bin/orca" ++ [nl]). split; reflexivity.
Defined.

(** ** More on the process runner *)

Lemma calls_at_most_trace {W A : Type} (os : env W) (n : nat) (p : prog A) :
  calls_at_most n p -> forall w, length (trace_of (exec os p w)) <= n.
Proof.
  revert n. induction p as [a|e|B c k IH]; intros n H w.
  - simpl. lia.
  - simpl. lia.
  - destruct n as [|n]; [contradiction|]. cbn [calls_at_most] in H.
    destruct (os _ c w) as [o w1] eqn:E.
    rewrite (trace_Do os c k w w1 o E). simpl.
    specialize (IH o n (H o) w1). lia.
Qed.

Lemma writes_none (tr : list event) :
  Forall (fun e => write_of e = None) tr -> writes tr = [].
Proof.
  induction 1 as [|e tr He _ IH]; [reflexivity|].
  unfold writes in *. simpl. now rewrite He.
Qed.

Lemma run_all_calls (P : event -> Prop) (input_content temp_dir : str) :
  P (Called (WriteFile (input_file_of temp_dir) input_content)) ->
  P (Called (SubprocessRun (launch_args temp_dir))) ->
  P (Called (PathExists (output_file_of temp_dir))) ->
  P (Called (ListDir temp_dir)) ->
  P (Called (ReadFile (output_file_of temp_dir))) ->
  all_calls P (run_orca_calculation input_content temp_dir).
Proof.
  intros Hw Hr He Hl Hd. unfold run_orca_calculation, perform. simpl.
  split; [exact Hw|]. intros [u|e]; simpl; [|exact I].
  split; [exact Hr|]. intros [rc|[msg|msg]]; simpl; try exact I.
  split; [exact He|]. intros [[|]|[msg|msg]]; simpl; try exact I.
  - split; [exact Hd|]. intros [c|[msg|msg]]; simpl; try exact I.
    destruct (negb (str_in SUCCESS_MARKER c)); exact I.
  - split; [exact Hl|]. intros [l|[msg|msg]]; exact I.
Qed.

Lemma run_calls_at_most (input_content temp_dir : str) :
  calls_at_most 4 (run_orca_calculation input_content temp_dir).
Proof.
  unfold run_orca_calculation, perform. simpl.
  intros [u|e]; simpl; [|exact I].
  intros [rc|[msg|msg]]; simpl; try exact I.
  intros [[|]|[msg|msg]]; simpl; try exact I.
  - intros [c|[msg|msg]]; simpl; try exact I.
    destruct (negb (str_in SUCCESS_MARKER c)); exact I.
  - intros [l|[msg|msg]]; exact I.
Qed.

Lemma run_writes {W : Type} (os : env W) (w : W) (input_content temp_dir : str) :
  writes (trace_of (exec os (run_orca_calculation input_content temp_dir) w))
  = [(input_file_of temp_dir, input_content)].
Proof.
  destruct (os _ (WriteFile (input_file_of temp_dir) input_content) w)
    as [[u|e] w1] eqn:Hw.
  - unfold run_orca_calculation, perform. cbn [bind].
    rewrite (trace_Do os _ _ w w1 _ Hw). cbn [bind].
    change (writes (Called (WriteFile ?p ?c) :: ?t)) with ((p, c) :: writes t).
    f_equal. apply writes_none, trace_all_calls. simpl.
    split; [reflexivity|]. intros [rc|[msg|msg]]; simpl; try exact I.
    split; [reflexivity|]. intros [[|]|[msg|msg]]; simpl; try exact I.
    + split; [reflexivity|]. intros [c|[msg|msg]]; simpl; try exact I.
      destruct (negb (str_in SUCCESS_MARKER c)); exact I.
    + split; [reflexivity|]. intros [l|[msg|msg]]; exact I.
  - unfold trace_of. rewrite (write_raises os w w1 _ _ e Hw). reflexivity.
Qed.

(** X7.  In every environment the run makes at most four calls, each of
    them on the input file, the output file or the working directory (the
    write of the input content, the launch, the test for the output file,
    the listing of the directory, the reading of the output file), and it
    writes one file only, the input file. *)
Theorem run_touches_its_directory_only :
  forall (W : Type) (os : env W) (w : W) (input_content temp_dir : str),
    Forall (run_call_ok input_content temp_dir)
           (trace_of (exec os (run_orca_calculation input_content temp_dir) w))
    /\ length
         (trace_of (exec os (run_orca_calculation input_content temp_dir) w))
       <= 4
    /\ writes
         (trace_of (exec os (run_orca_calculation input_content temp_dir) w))
       = [(input_file_of temp_dir, input_content)].
Proof.
  intros W os w input_content temp_dir. split; [|split].
  - apply trace_all_calls, run_all_calls; simpl; auto.
  - apply calls_at_most_trace, run_calls_at_most.
  - apply run_writes.
Qed.

(** X8.  The exit code of the process plays no part in a success: when the
    output file exists and holds the marker, the run succeeds with the
    text of the file, whatever the exit code. *)
Theorem success_whatever_exit_code :
  forall (W : Type) (os : env W) (w w1 w2 w3 w4 : W)
         (input_content temp_dir : str) (u : unit) (rc : Z) (content : str),
    os _ (WriteFile (input_file_of temp_dir) input_content) w = (Ok u, w1) ->
    os _ (SubprocessRun (launch_args temp_dir)) w1 = (Ok rc, w2) ->
    os _ (PathExists (output_file_of temp_dir)) w2 = (Ok true, w3) ->
    os _ (ReadFile (output_file_of temp_dir)) w3 = (Ok content, w4) ->
    str_in SUCCESS_MARKER content = true ->
    result_of (exec os (run_orca_calculation input_content temp_dir) w)
    = Ok (true, output_file_of temp_dir, content).
Proof.
  intros W os w w1 w2 w3 w4 input_content temp_dir u rc content
         Hw Hr He Hd Hm.
  rewrite (run_after_launch os w w1 w2 _ _ u rc Hw Hr), He, Hd, Hm.
  reflexivity.
Qed.

Lemma success_whatever_exit_code_witness :
  result_of
    (exec scripted (run_orca_calculation sample_input sample_dir)
          (script_of (Ok tt) (Ok 1%Z) (Ok true) (Ok [])
                     (Ok (lit "****ORCA TERMINATED NORMALLY****"))))
  = Ok (true, output_file_of sample_dir,
        lit "****ORCA TERMINATED NORMALLY****").
Proof.
  refine (success_whatever_exit_code
            script scripted _ _ _ _ _ sample_input sample_dir tt 1%Z
            (lit "****ORCA TERMINATED NORMALLY****") _ _ _ _ _);
    reflexivity.
Defined.

(** X9.  When the launch raises an exception other than a timeout, the run
    fails with the message of the exception as diagnostic, and nothing is
    called after the launch. *)
Theorem launch_failure_reported :
  forall (W : Type) (os : env W) (w w1 w2 : W)
         (input_content temp_dir : str) (u : unit) (msg : str),
    os _ (WriteFile (input_file_of temp_dir) input_content) w = (Ok u, w1) ->
    os _ (SubprocessRun (launch_args temp_dir)) w1
    = (Raise (OtherException msg), w2) ->
    exec os (run_orca_calculation input_content temp_dir) w
    = (Ok (false, output_file_of temp_dir, msg), w2,
       [Called (WriteFile (input_file_of temp_dir) input_content);
        Called (SubprocessRun (launch_args temp_dir))]).
Proof.
  intros W os w w1 w2 input_content temp_dir u msg Hw Hr.
  unfold run_orca_calculation, perform. cbn [bind try_catch exec].
  rewrite Hw. cbn [bind try_catch exec]. rewrite Hr. reflexivity.
Qed.

Lemma launch_failure_reported_witness :
  result_of
    (exec scripted (run_orca_calculation sample_input sample_dir)
          (script_of (Ok tt)
                     (Raise (OtherException (lit "[Errno 2] No such file")))
                     (Ok true) (Ok []) (Ok [])))
  = Ok (false, output_file_of sample_dir, lit "[Errno 2] No such file").
Proof.
  refine (f_equal result_of
            (launch_failure_reported
               script scripted _ _ _ sample_input sample_dir tt
               (lit "[Errno 2] No such file") _ _));
    reflexivity.
Defined.

(** ** The button *)

(** Running one program after another: the second starts in the state
    the first left, and the calls follow each other; an exception of the
    first ends the run. *)
Lemma exec_bind {W A B : Type} (os : env W) (p : prog A) (f : A -> prog B)
      (w : W) :
  exec os (bind p f) w
  = match exec os p w with
    | (Ok a, w1, tr) =>
        match exec os (f a) w1 with
        | (r, w2, tr2) => (r, w2, tr ++ tr2)
        end
    | (Raise e, w1, tr) => (Raise e, w1, tr)
    end.
Proof.
  revert w. induction p as [a|e|C c k IH]; intros w.
  - cbn [bind exec]. destruct (exec os (f a) w) as [[r w2] tr2]. reflexivity.
  - reflexivity.
  - cbn [bind exec]. destruct (os _ c w) as [o w1].
    rewrite IH. destruct (exec os (k o) w1) as [[[a|e] w2] tr].
    + destruct (exec os (f a) w2) as [[r w3] tr2]. reflexivity.
    + reflexivity.
Qed.

Lemma atom_count_zero (g : str) :
  (atom_count g =? 0) = (length (strip g) =? 0).
Proof.
  rewrite strip_empty, atom_count_eq, visible_split_nl.
  induction (split_nl g) as [|l ls IH]; [reflexivity|].
  cbn [filter existsb]. destruct (visible l); [reflexivity | exact IH].
Qed.

(** The path in a result of the run is the output file. *)
Lemma run_result_path {W : Type} (os : env W) (w : W)
      (input_content temp_dir : str) (b : bool) (f msg : str) :
  result_of (exec os (run_orca_calculation input_content temp_dir) w)
  = Ok (b, f, msg) ->
  f = output_file_of temp_dir.
Proof.
  intros H.
  destruct (os _ (WriteFile (input_file_of temp_dir) input_content) w)
    as [[u|e] w1] eqn:Hw.
  - destruct (os _ (SubprocessRun (launch_args temp_dir)) w1)
      as [[rc|e] w2] eqn:Hr.
    + rewrite (run_after_launch os w w1 w2 _ _ u rc Hw Hr) in H.
      destruct (os _ (PathExists (output_file_of temp_dir)) w2)
        as [[[|]|[m|m]] w3].
      * destruct (os _ (ReadFile (output_file_of temp_dir)) w3)
          as [[c|[m|m]] w4]; [destruct (str_in SUCCESS_MARKER c)| |];
          now injection H as _ <- _.
      * destruct (os _ (ListDir temp_dir) w3) as [[l|[m|m]] w4];
          now injection H as _ <- _.
      * now injection H as _ <- _.
      * now injection H as _ <- _.
    + unfold result_of in H.
      rewrite (exec_launch_raises os w w1 w2 _ _ u e Hw Hr) in H.
      now injection H as _ <- _.
  - unfold result_of in H. rewrite (write_raises os w w1 _ _ e Hw) in H.
    discriminate.
Qed.

Lemma run_success_has_marker {W : Type} (os : env W) (w : W)
      (input_content temp_dir : str) (f text : str) :
  result_of (exec os (run_orca_calculation input_content temp_dir) w)
  = Ok (true, f, text) ->
  str_in SUCCESS_MARKER text = true.
Proof.
  intros H.
  destruct (os _ (WriteFile (input_file_of temp_dir) input_content) w)
    as [[u|e] w1] eqn:Hw.
  - destruct (os _ (SubprocessRun (launch_args temp_dir)) w1)
      as [[rc|e] w2] eqn:Hr.
    + rewrite (run_after_launch os w w1 w2 _ _ u rc Hw Hr) in H.
      destruct (os _ (PathExists (output_file_of temp_dir)) w2)
        as [[[|]|[m|m]] w3]; try discriminate.
      * destruct (os _ (ReadFile (output_file_of temp_dir)) w3)
          as [[c|[m|m]] w4]; try discriminate.
        destruct (str_in SUCCESS_MARKER c) eqn:Hc; [|discriminate].
        injection H as _ Ht. now subst text.
      * destruct (os _ (ListDir temp_dir) w3) as [[l|[m|m]] w4];
          discriminate.
    + unfold result_of in H.
      rewrite (exec_launch_raises os w w1 w2 _ _ u e Hw Hr) in H.
      destruct e; discriminate.
  - unfold result_of in H. rewrite (write_raises os w w1 _ _ e Hw) in H.
    discriminate.
Qed.

Lemma run_button_visible (g d : str) :
  atom_count g <> 0 ->
  run_button g d
  = (r <- run_orca_calculation (button_input g) d ;;
     match r with
     | (success, output_file, message) =>
         if negb success then Ret (CalculationFailed message)
         else
           t <- parse_orca_output output_file ;;
           match t with
           | (energy, optimized_geometry, full_output) =>
               Ret (Results energy optimized_geometry full_output)
           end
     end).
Proof.
  intros H. unfold run_button. rewrite <- atom_count_zero.
  apply Nat.eqb_neq in H. now rewrite H.
Qed.

(** X10.  The page asks for a geometry exactly when the number of atoms it
    shows is 0, and then nothing is called: no file is written and the
    engine is not launched. *)
Theorem blank_input_runs_nothing :
  forall geometry_input : str,
    (atom_count geometry_input =? 0)
    = (length (strip geometry_input) =? 0)
    /\ (forall (W : Type) (os : env W) (w : W) (temp_dir : str),
           atom_count geometry_input = 0 ->
           exec os (run_button geometry_input temp_dir) w
           = (Ok PleaseEnterGeometry, w, [])).
Proof.
  intros g. split; [apply atom_count_zero|].
  intros W os w d H. unfold run_button.
  rewrite <- atom_count_zero, H. reflexivity.
Qed.

Lemma blank_input_runs_nothing_witness :
  exec scripted (run_button (lit "  " ++ [nl] ++ lit " " ++ [nl]) sample_dir)
       (script_of (Ok tt) (Ok 0%Z) (Ok true) (Ok []) (Ok []))
  = (Ok PleaseEnterGeometry,
     script_of (Ok tt) (Ok 0%Z) (Ok true) (Ok []) (Ok []), []).
Proof.
  apply (proj2 (blank_input_runs_nothing (lit "  " ++ [nl] ++ lit " " ++ [nl]))).
  reflexivity.
Defined.

(** X11.  When the run fails, the page shows the diagnostic of the run, and
    the parser is not run: the calls are those of the run. *)
Theorem failed_run_is_shown :
  forall (W : Type) (os : env W) (w w1 : W) (geometry_input temp_dir : str)
         (f msg : str) (tr : list event),
    atom_count geometry_input <> 0 ->
    exec os (run_orca_calculation (button_input geometry_input) temp_dir) w
    = (Ok (false, f, msg), w1, tr) ->
    exec os (run_button geometry_input temp_dir) w
    = (Ok (CalculationFailed msg), w1, tr).
Proof.
  intros W os w w1 g d f msg tr Hg Hrun.
  rewrite (run_button_visible g d Hg), exec_bind, Hrun.
  cbn [negb exec]. now rewrite app_nil_r.
Qed.

Lemma failed_run_is_shown_witness :
  result_of
    (exec scripted (run_button (lit "O 0.0 0.0 0.0") sample_dir)
          (script_of (Ok tt) (Raise (TimeoutExpired (lit "timed out")))
                     (Ok true) (Ok []) (Ok [])))
  = Ok (CalculationFailed TIMEOUT_MSG).
Proof.
  refine (f_equal result_of
            (failed_run_is_shown script scripted _ _ (lit "O 0.0 0.0 0.0")
                                 sample_dir _ _ _ _ _)).
  - intros H. discriminate H.
  - reflexivity.
Defined.

(** X12.  When the run succeeds, the results shown are parsed from a second
    reading of the output file, made after the run: the text the run
    returned (which holds the marker) is not the one parsed.  If the
    second reading raises, the page still shows results, with the error
    message in place of the energy and of the geometry. *)
Theorem results_from_second_reading :
  forall (W : Type) (os : env W) (w w1 : W) (geometry_input temp_dir : str)
         (f text : str) (tr : list event),
    atom_count geometry_input <> 0 ->
    exec os (run_orca_calculation (button_input geometry_input) temp_dir) w
    = (Ok (true, f, text), w1, tr) ->
    f = output_file_of temp_dir
    /\ str_in SUCCESS_MARKER text = true
    /\ (forall content w2,
           os _ (ReadFile (output_file_of temp_dir)) w1 = (Ok content, w2) ->
           exec os (run_button geometry_input temp_dir) w
           = (Ok (Results (parse_energy content) (parse_geometry content)
                          content),
              w2, tr ++ [Called (ReadFile (output_file_of temp_dir))]))
    /\ (forall e w2,
           os _ (ReadFile (output_file_of temp_dir)) w1 = (Raise e, w2) ->
           exec os (run_button geometry_input temp_dir) w
           = (Ok (Results (ERROR_PREFIX ++ str_of_exn e)
                          (ERROR_PREFIX ++ str_of_exn e) (str_of_exn e)),
              w2, tr ++ [Called (ReadFile (output_file_of temp_dir))])).
Proof.
  intros W os w w1 g d f text tr Hg Hrun.
  assert (Hres : result_of (exec os (run_orca_calculation (button_input g) d) w)
                 = Ok (true, f, text)) by now rewrite Hrun.
  pose proof (run_result_path os w _ _ _ _ _ Hres) as Hf. subst f.
  split; [reflexivity|].
  split; [exact (run_success_has_marker os w _ _ _ _ Hres)|].
  split.
  - intros content w2 Hd.
    rewrite (run_button_visible g d Hg), exec_bind, Hrun.
    cbn [negb]. rewrite exec_bind.
    unfold parse_orca_output, perform. cbn [bind try_catch exec].
    rewrite Hd. reflexivity.
  - intros e w2 Hd.
    rewrite (run_button_visible g d Hg), exec_bind, Hrun.
    cbn [negb]. rewrite exec_bind.
    unfold parse_orca_output, perform. cbn [bind try_catch exec].
    rewrite Hd. reflexivity.
Qed.

Lemma results_from_second_reading_witness :
  result_of
    (exec scripted (run_button (lit "O 0.0 0.0 0.0") sample_dir)
          (script_of (Ok tt) (Ok 0%Z) (Ok true) (Ok []) (Ok sample_report)))
  = Ok (Results (lit "-76.321")
                (lit "O       0.000000      0.000000      0.117790" ++ [nl]
                 ++ lit "H       0.000000      0.755453     -0.471161" ++ [nl]
                 ++ lit "H       0.000000     -0.755453     -0.471161")
                sample_report).
Proof.
  refine (eq_trans
            (f_equal result_of
               (proj1 (proj2 (proj2 (results_from_second_reading
                                       script scripted _ _
                                       (lit "O 0.0 0.0 0.0") sample_dir
                                       _ _ _ _ _)))
                      sample_report _ _))
            _).
  - intros H. discriminate H.
  - vm_compute. reflexivity.
  - reflexivity.
  - vm_compute. reflexivity.
Defined.

(** ** What the matcher returns *)

Lemma star_sound (g : bool) (r : regex) (body : (option str * str) -> list (option str * str)) :
  (forall st st', In st' (body st) ->
                  exists w, snd st = w ++ snd st' /\ lang r w) ->
  forall fuel st st',
    In st' (star g body fuel st) ->
    exists w, snd st = w ++ snd st' /\ lang (Star g r) w.
Proof.
  intros Hb. induction fuel as [|n IH]; intros st st' H.
  - destruct H as [<-|[]]. exists []. split; [reflexivity | constructor].
  - cbn [star] in H.
    assert (Hmore : forall x,
               In x (flat_map
                       (fun st1 => if length (snd st1) <? length (snd st)
                                   then star g body n st1 else [])
                       (body st)) ->
               exists w, snd st = w ++ snd x /\ lang (Star g r) w).
    { intros x Hx. apply in_flat_map in Hx as [y [Hy Hx]].
      destruct (length (snd y) <? length (snd st)); [|contradiction].
      destruct (Hb _ _ Hy) as [w1 [E1 L1]].
      destruct (IH _ _ Hx) as [w2 [E2 L2]].
      exists (w1 ++ w2). split; [|now constructor].
      now rewrite E1, E2, app_assoc. }
    destruct g.
    + apply in_app_or in H as [H|[<-|[]]]; [now apply Hmore|].
      exists []. split; [reflexivity | constructor].
    + destruct H as [<-|H]; [|now apply Hmore].
      exists []. split; [reflexivity | constructor].
Qed.

(** Whatever the matcher returns, the input that is left is an end of
    the input it was given, and what lies before it is a word of the
    pattern. *)
Lemma m_sound (r : regex) :
  forall st st', In st' (m r st) ->
                 exists w, snd st = w ++ snd st' /\ lang r w.
Proof.
  induction r as [|p|r1 IH1 r2 IH2|r1 IH1 r2 IH2|g r IH|r IH|r IH];
    intros st st' H.
  - destruct H as [<-|[]]. exists []. split; [reflexivity | constructor].
  - cbn [m] in H. destruct (snd st) as [|c t] eqn:E; [contradiction|].
    destruct (p c) eqn:Hp; [|contradiction]. destruct H as [<-|[]].
    exists [c]. split; [reflexivity | now constructor].
  - rewrite m_Seq in H. apply in_flat_map in H as [x [Hx H]].
    destruct (IH1 _ _ Hx) as [w1 [E1 L1]].
    destruct (IH2 _ _ H) as [w2 [E2 L2]].
    exists (w1 ++ w2). split; [|now constructor].
    now rewrite E1, E2, app_assoc.
  - rewrite m_Alt in H. apply in_app_or in H as [H|H].
    + destruct (IH1 _ _ H) as [w [E L]]. exists w. split; [exact E|].
      now apply lang_Alt_l.
    + destruct (IH2 _ _ H) as [w [E L]]. exists w. split; [exact E|].
      now apply lang_Alt_r.
  - cbn [m] in H. revert H. apply star_sound. exact IH.
  - cbn [m] in H. apply in_map_iff in H as [x [<- Hx]].
    destruct (IH _ _ Hx) as [w [E L]]. exists w. split; [exact E|].
    now constructor.
  - cbn [m] in H. destruct (m r st) as [|x l]; [contradiction|].
    destruct H as [<-|[]]. exists []. split; [reflexivity | constructor].
Qed.

Lemma re_search_in (r : regex) (s : str) (st : option str * str) :
  re_search r s = Some st -> exists s', In st (m r (None, s')).
Proof.
  induction s as [|c s IH]; rewrite re_search_eq;
    destruct (m r (None, _)) as [|x l] eqn:E.
  - discriminate.
  - intros [= ->]. exists []. rewrite E. now left.
  - exact IH.
  - intros [= ->]. exists (c :: s). rewrite E. now left.
Qed.

Lemma lang_Chr_inv (p : ascii -> bool) (w : str) :
  lang (Chr p) w -> exists c, w = [c] /\ p c = true.
Proof. inversion 1; subst. now exists c. Qed.

Lemma lang_Opt_chr_inv (p : ascii -> bool) (w : str) :
  lang (Opt (Chr p)) w -> w = [] \/ exists c, w = [c] /\ p c = true.
Proof.
  unfold Opt. inversion 1; subst.
  - right. now apply lang_Chr_inv.
  - left. match goal with H : lang Eps _ |- _ => now inversion H end.
Qed.

Lemma lang_Star_chr_inv (g : bool) (p : ascii -> bool) (w : str) :
  lang (Star g (Chr p)) w -> forallb p w = true.
Proof.
  intros H. remember (Star g (Chr p)) as r eqn:E.
  induction H; try discriminate; [reflexivity|].
  injection E as -> ->.
  apply lang_Chr_inv in H as [c [-> Hc]].
  simpl. rewrite Hc. now apply IHlang2.
Qed.

Lemma lang_Plus_chr_inv (p : ascii -> bool) (w : str) :
  lang (Plus (Chr p)) w -> w <> [] /\ forallb p w = true.
Proof.
  unfold Plus. inversion 1; subst.
  match goal with H : lang (Chr _) _ |- _ =>
    apply lang_Chr_inv in H as [c [-> Hc]] end.
  match goal with H : lang (Star _ _) _ |- _ =>
    apply lang_Star_chr_inv in H end.
  split; [discriminate|]. simpl. now rewrite Hc.
Qed.

Lemma drop_sign_digits (d : str) :
  d <> [] -> forallb is_digit d = true -> drop_sign d = d.
Proof.
  destruct d as [|c d]; [contradiction|]. intros _ H. simpl in H.
  apply andb_true_iff in H as [Hc _]. unfold drop_sign.
  now rewrite (proj1 (proj2 (is_digit_other c Hc))).
Qed.

Lemma lang_exponent (w : str) : lang exponent_re w -> exponent_ok w = true.
Proof.
  intros H. unfold exponent_re, Opt in H.
  inversion H as [| | |? ? ? Hl|? ? ? Hr| | | |]; subst; clear H.
  - inversion Hl as [| |? ? e0 r1 He H1| | | | | |]; subst; clear Hl.
    apply lang_Chr_inv in He as [e [-> He]].
    inversion H1 as [| |? ? sgw dw Hs Hd| | | | | |]; subst; clear H1.
    apply lang_Opt_chr_inv in Hs.
    apply lang_Plus_chr_inv in Hd as [Hne Hd].
    cbn [app exponent_ok]. rewrite He. cbn [andb].
    destruct Hs as [->|[c [-> Hc]]].
    + cbn [app]. rewrite (drop_sign_digits _ Hne Hd), Hd.
      destruct dw; [contradiction | reflexivity].
    + cbn [app drop_sign]. rewrite Hc, Hd.
      destruct dw; [contradiction | reflexivity].
  - inversion Hr. reflexivity.
Qed.

(** A word of the number pattern has the shape of a number. *)
Lemma lang_number (w : str) :
  lang number_re w ->
  exists sg ip fp ex,
    w = sg ++ ip ++ fp ++ ex /\ numeral sg ip fp ex = true.
Proof.
  unfold number_re. intros H.
  inversion H as [| |? ? sg r1 Hsg H1| | | | | |]; subst. clear H.
  inversion H1 as [| |? ? d1 r2 Hd1 H2| | | | | |]; subst. clear H1.
  inversion H2 as [| |? ? dt r3 Hdt H3| | | | | |]; subst. clear H2.
  inversion H3 as [| |? ? d2 ex Hd2 Hex| | | | | |]; subst. clear H3.
  apply lang_Opt_chr_inv in Hsg, Hdt.
  apply lang_Star_chr_inv in Hd1.
  apply lang_Plus_chr_inv in Hd2 as [Hne Hd2].
  apply lang_exponent in Hex.
  assert (Hsg' : match sg with [] => true | [c] => is_sign c | _ => false end
                 = true).
  { destruct Hsg as [->|[c [-> Hc]]]; [reflexivity | exact Hc]. }
  assert (Hl : (length d2 =? 0) = false).
  { destruct d2; [contradiction | reflexivity]. }
  destruct Hdt as [->|[c [-> Hc]]].
  - exists sg, (d1 ++ d2), [], ex. split.
    + cbn [app]. now rewrite <- app_assoc.
    + unfold numeral. rewrite Hsg', forallb_app, Hd1, Hd2, Hex.
      rewrite length_app.
      destruct d2; [contradiction|]. simpl.
      now rewrite Nat.add_succ_r.
  - exists sg, d1, (c :: d2), ex. split.
    + cbn [app]. reflexivity.
    + unfold numeral. now rewrite Hsg', Hd1, Hc, Hl, Hd2, Hex.
Qed.

Lemma number_char_not_underscore (c : ascii) :
  number_char c = true -> Ascii.eqb c "_"%char = false.
Proof.
  destruct c as [[] [] [] [] [] [] [] []]; intros H;
    try discriminate H; reflexivity.
Qed.

Lemma underscores_ok_none (w : str) :
  forallb number_char w = true ->
  forall prev,
    match prev with Some p => Ascii.eqb p "_"%char | None => false end = false ->
    underscores_ok prev w = true.
Proof.
  induction w as [|c w IH]; intros H prev Hp.
  - destruct prev; [|reflexivity]. cbn [underscores_ok]. now rewrite Hp.
  - simpl in H. apply andb_true_iff in H as [Hc Hw].
    pose proof (number_char_not_underscore c Hc) as Hu.
    cbn [underscores_ok]. rewrite Hu.
    rewrite (IH Hw (Some c) Hu).
    destruct prev as [p|]; [|reflexivity]. now rewrite Hp.
Qed.

Lemma remove_underscores_none (w : str) :
  forallb number_char w = true -> remove_underscores w = w.
Proof.
  intros H. unfold remove_underscores. apply forallb_filter_id.
  apply forallb_forall. intros c Hc.
  rewrite forallb_forall in H.
  now rewrite (number_char_not_underscore c (H c Hc)).
Qed.

Lemma forallb_weaken (p q : ascii -> bool) :
  (forall c, p c = true -> q c = true) ->
  forall w : str, forallb p w = true -> forallb q w = true.
Proof.
  intros Hpq w H. apply forallb_forall. intros c Hc.
  rewrite forallb_forall in H. now apply Hpq, H.
Qed.

Lemma exponent_chars (ex : str) :
  exponent_ok ex = true -> forallb number_char ex = true.
Proof.
  destruct ex as [|e t]; [reflexivity|]. cbn [exponent_ok forallb].
  intros H. apply andb_true_iff in H as [He H].
  apply andb_true_iff in H as [_ Hd].
  unfold number_char at 1. rewrite He, !orb_true_r. cbn [andb].
  destruct t as [|c t]; [reflexivity|]. unfold drop_sign in Hd.
  assert (D : forall w, forallb is_digit w = true ->
                        forallb number_char w = true).
  { apply forallb_weaken. intros x Hx. unfold number_char.
    now rewrite Hx, orb_true_r. }
  destruct (is_sign c) eqn:Hc.
  - cbn [forallb]. unfold number_char at 1. rewrite Hc. cbn [orb andb].
    now apply D.
  - now apply D.
Qed.

Lemma numeral_chars (sg ip fp ex : str) :
  numeral sg ip fp ex = true ->
  forallb number_char (sg ++ ip ++ fp ++ ex) = true.
Proof.
  unfold numeral. intros H.
  apply andb_true_iff in H as [H Hex].
  apply andb_true_iff in H as [H Hfp].
  apply andb_true_iff in H as [Hsg Hip].
  assert (D : forall w, forallb is_digit w = true ->
                        forallb number_char w = true).
  { apply forallb_weaken. intros x Hx. unfold number_char.
    now rewrite Hx, orb_true_r. }
  rewrite !forallb_app, (D ip Hip), (exponent_chars ex Hex).
  assert (S : forallb number_char sg = true).
  { destruct sg as [|c [|c' sg]]; [reflexivity | | discriminate].
    simpl. unfold number_char. now rewrite Hsg. }
  assert (F : forallb number_char fp = true).
  { destruct fp as [|c fd]; [reflexivity|].
    apply andb_true_iff in Hfp as [Hfp Hfd].
    apply andb_true_iff in Hfp as [Hc _].
    simpl. unfold number_char at 1. rewrite Hc, orb_true_r. cbn [orb andb].
    now apply D. }
  now rewrite S, F.
Qed.

Lemma takewhile_run (p : ascii -> bool) (run rest : str) :
  forallb p run = true ->
  match rest with [] => true | c :: _ => negb (p c) end = true ->
  takewhile p (run ++ rest) = run.
Proof.
  intros Hr Hs. induction run as [|c run IH]; simpl in *.
  - destruct rest as [|c rest]; [reflexivity|].
    apply negb_true_iff in Hs. simpl. now rewrite Hs.
  - apply andb_true_iff in Hr as [Hc Hr]. rewrite Hc. f_equal. now apply IH.
Qed.

Lemma exponent_head (ex : str) :
  exponent_ok ex = true ->
  match ex with [] => true | c :: _ => negb (is_digit c) end = true
  /\ match ex with [] => true | c :: _ => negb (is_dot c) end = true.
Proof.
  destruct ex as [|e t]; [now split|]. cbn [exponent_ok]. intros H.
  apply andb_true_iff in H as [He _].
  destruct (is_e_other e He) as [-> ->]. now split.
Qed.

(** A number of the report is a string that [float] accepts. *)
Lemma numeral_float_ok (sg ip fp ex : str) :
  numeral sg ip fp ex = true -> float_ok (sg ++ ip ++ fp ++ ex) = true.
Proof.
  intros Hnum. pose proof (numeral_chars _ _ _ _ Hnum) as Hch.
  unfold float_ok.
  rewrite (underscores_ok_none _ Hch None eq_refl).
  rewrite (remove_underscores_none _ Hch). cbn [andb].
  unfold numeral in Hnum.
  apply andb_true_iff in Hnum as [H Hex].
  apply andb_true_iff in H as [H Hfp].
  apply andb_true_iff in H as [Hsg Hip].
  destruct (exponent_head ex Hex) as [Hxd Hxp].
  assert (Hdec : decimal_ok (ip ++ fp ++ ex) = true).
  { unfold decimal_ok. destruct fp as [|d fd].
    - cbn [app]. rewrite (takewhile_run is_digit ip ex Hip Hxd).
      rewrite (dropwhile_run is_digit ip ex Hip Hxd).
      destruct ex as [|e t]; [exact Hfp|].
      cbn [exponent_ok] in Hex. apply andb_true_iff in Hex as [He Hex'].
      rewrite (proj2 (is_e_other e He)), Hfp.
      cbn [andb exponent_ok]. now rewrite He, Hex'.
    - apply andb_true_iff in Hfp as [Hfp Hfd].
      apply andb_true_iff in Hfp as [Hd Hne].
      assert (Hdd : match (d :: fd) ++ ex with
                    | [] => true | c :: _ => negb (is_digit c) end = true).
      { cbn [app]. now rewrite (proj2 (is_dot_other d Hd)). }
      rewrite (takewhile_run is_digit ip ((d :: fd) ++ ex) Hip Hdd).
      rewrite (dropwhile_run is_digit ip ((d :: fd) ++ ex) Hip Hdd).
      cbn [app]. rewrite Hd.
      rewrite (takewhile_run is_digit fd ex Hfd Hxd).
      rewrite (dropwhile_run is_digit fd ex Hfd Hxd), Hex.
      destruct fd; [discriminate|]. simpl.
      now rewrite Nat.add_succ_r. }
  assert (Hds : drop_sign (sg ++ ip ++ fp ++ ex) = ip ++ fp ++ ex).
  { destruct sg as [|c [|c' sg]]; [| |discriminate].
    - cbn [app]. destruct ip as [|i ip].
      + destruct fp as [|d fd]; [discriminate|].
        apply andb_true_iff in Hfp as [Hfp _].
        apply andb_true_iff in Hfp as [Hd _].
        cbn [app drop_sign]. now rewrite (is_dot_not_sign d Hd).
      + simpl in Hip. apply andb_true_iff in Hip as [Hi _].
        cbn [app drop_sign].
        now rewrite (proj1 (proj2 (is_digit_other i Hi))).
    - cbn [app drop_sign]. now rewrite Hsg. }
  rewrite Hds, Hdec. apply orb_true_r.
Qed.

(** ** What the parser returns on any text *)

(** X13.  Whatever the text, the energy is [Not found] or a number as the
    pattern reads it (optional sign, digits, optional fraction, optional
    exponent), and then a string that [float] accepts. *)
Theorem energy_is_a_number :
  forall content : str,
    parse_energy content = NOT_FOUND
    \/ ((exists sg ip fp ex,
            parse_energy content = sg ++ ip ++ fp ++ ex
            /\ numeral sg ip fp ex = true)
        /\ float_ok (parse_energy content) = true).
Proof.
  intros content. unfold parse_energy.
  destruct (re_search energy_pattern content) as [st|] eqn:E; [|now left].
  right. apply re_search_in in E as [s' Hin].
  unfold energy_pattern in Hin. rewrite m_Seq in Hin.
  apply in_flat_map in Hin as [x [_ Hin]]. rewrite m_Seq in Hin.
  apply in_flat_map in Hin as [z [_ Hin]]. cbn [m] in Hin.
  apply in_map_iff in Hin as [st' [<- Hst']].
  destruct (m_sound number_re _ _ Hst') as [w [Ew Lw]].
  rewrite Ew, firstn_app_sub. cbn [group1 fst].
  destruct (lang_number w Lw) as [sg [ip [fp [ex [-> Hnum]]]]].
  split.
  - now exists sg, ip, fp, ex.
  - now apply numeral_float_ok.
Qed.

(** X14.  When the header of the coordinates does not occur in the text, the
    geometry is [Not found]. *)
Theorem geometry_needs_header :
  forall content : str,
    str_in COORD_HEADER content = false ->
    parse_geometry content = NOT_FOUND.
Proof.
  intros content H. unfold parse_geometry, re_findall.
  cbn [findall_fuel]. unfold geometry_pattern.
  rewrite re_search_none; [reflexivity|].
  unfold str_in in H. destruct (str_find COORD_HEADER content);
    [discriminate | reflexivity].
Qed.

Lemma geometry_needs_header_witness :
  parse_geometry (lit "FINAL SINGLE POINT ENERGY  -76.123456" ++ [nl]
                  ++ lit "CARTESIAN COORDINATES (A.U.)" ++ [nl]
                  ++ lit "---" ++ [nl] ++ lit "O 0.0 0.0 0.0" ++ [nl]
                  ++ lit "---" ++ [nl])
  = NOT_FOUND.
Proof.
  apply geometry_needs_header. reflexivity.
Defined.

(** ** The geometry given back to the page *)

Lemma trimmed_visible (s : str) : trimmed s = true -> visible s = true.
Proof.
  destruct s as [|c s]; [discriminate|]. cbn [trimmed]. intros H.
  apply andb_true_iff in H as [Hc _]. rewrite visible_cons.
  unfold not_space. now rewrite Hc.
Qed.

(** X15.  The geometry the parser returns has no blank line: given back to
    the page as input, the number of atoms shown is the number of its
    lines, and is not 0. *)
Theorem returned_geometry_counts :
  forall content : str,
    atom_count (parse_geometry content)
    = length (split_nl (parse_geometry content))
    /\ atom_count (parse_geometry content) <> 0.
Proof.
  intros content.
  assert (E : atom_count (parse_geometry content)
              = length (split_nl (parse_geometry content))).
  { rewrite atom_count_eq. f_equal.
    destruct (parse_geometry_of_block content) as [H|[b H]]; rewrite H.
    - reflexivity.
    - destruct (geometry_of_block_lines b) as [N|L].
      + rewrite N. reflexivity.
      + apply forallb_filter_id. apply forallb_forall. intros f Hf.
        rewrite forallb_forall in L.
        now apply trimmed_visible, atom_line_ok_parts, L. }
  split; [exact E|]. rewrite E.
  pose proof (split_nl_nonempty (parse_geometry content)) as H.
  destruct (split_nl (parse_geometry content)); [contradiction | discriminate].
Qed.

(** ** The matcher finds every word of a pattern without look-ahead *)

Lemma startswith_split (p s : str) :
  startswith p s = true -> s = p ++ skipn (length p) s.
Proof.
  revert s. induction p as [|a p IH]; intros s H; [reflexivity|].
  destruct s as [|b s]; [discriminate|]. simpl in H.
  apply andb_true_iff in H as [Hab Hp]. apply Ascii.eqb_eq in Hab. subst b.
  cbn [length skipn app]. f_equal. now apply IH.
Qed.

(** More fuel than the length of the input changes nothing. *)
Lemma star_fuel (g : bool) (body : mstate -> list mstate) :
  forall (n1 n2 : nat) (st : mstate),
    length (snd st) <= n1 -> length (snd st) <= n2 ->
    star g body n1 st = star g body n2 st.
Proof.
  assert (Hz : forall n st, length (snd st) <= 0 ->
                            star g body n st = [st]).
  { intros [|n] st H; [reflexivity|]. cbn [star].
    rewrite flat_map_nil; [now destruct g|].
    intros x _. destruct (length (snd x) <? length (snd st)) eqn:E;
      [|reflexivity].
    apply Nat.ltb_lt in E. lia. }
  induction n1 as [|n1 IH]; intros n2 st H1 H2.
  - now rewrite (Hz n2 st H1).
  - destruct n2 as [|n2]; [now rewrite (Hz (S n1) st H2)|].
    cbn [star].
    assert (E : flat_map
                  (fun st' => if length (snd st') <? length (snd st)
                              then star g body n1 st' else []) (body st)
                = flat_map
                    (fun st' => if length (snd st') <? length (snd st)
                                then star g body n2 st' else []) (body st)).
    { apply flat_map_ext. intros x.
      destruct (length (snd x) <? length (snd st)) eqn:E; [|reflexivity].
      apply Nat.ltb_lt in E. apply IH; lia. }
    now rewrite E.
Qed.

Lemma m_complete (r : regex) (w : str) :
  lang r w ->
  ahead_free r = true ->
  forall (cap : option str) (rest : str),
  exists cap', In (cap', rest) (m r (cap, w ++ rest)).
Proof.
  induction 1 as [|p c Hc|r1 r2 w1 w2 _ IH1 _ IH2|r1 r2 w _ IH|r1 r2 w _ IH
                  |g r|g r w1 w2 _ IH1 _ IH2|r w _ IH|r];
    intros Hf cap rest; cbn [ahead_free] in Hf.
  - exists cap. now left.
  - exists cap. cbn [app]. rewrite m_Chr_cons, Hc. now left.
  - apply andb_true_iff in Hf as [Hf1 Hf2].
    destruct (IH1 Hf1 cap (w2 ++ rest)) as [c1 H1].
    destruct (IH2 Hf2 c1 rest) as [c2 H2].
    exists c2. rewrite <- app_assoc, m_Seq. apply in_flat_map.
    now exists (c1, w2 ++ rest).
  - apply andb_true_iff in Hf as [Hf1 _].
    destruct (IH Hf1 cap rest) as [c1 H1]. exists c1.
    rewrite m_Alt. apply in_or_app. now left.
  - apply andb_true_iff in Hf as [_ Hf2].
    destruct (IH Hf2 cap rest) as [c1 H1]. exists c1.
    rewrite m_Alt. apply in_or_app. now right.
  - exists cap. cbn [m app snd]. destruct rest as [|c rest].
    + now left.
    + cbn [length star]. destruct g; [apply in_or_app; right|]; now left.
  - destruct w1 as [|a w1]; [exact (IH2 Hf cap rest)|].
    destruct (IH1 Hf cap (w2 ++ rest)) as [c1 H1].
    destruct (IH2 Hf c1 rest) as [c2 H2].
    exists c2. rewrite <- app_assoc. cbn [m snd app length star].
    cbn [app] in H1.
    assert (Hin : In (c2, rest)
                     (flat_map
                        (fun st' =>
                           if length (snd st')
                              <? length (snd (cap, a :: w1 ++ w2 ++ rest))
                           then star g (m r)
                                     (length (w1 ++ w2 ++ rest)) st'
                           else [])
                        (m r (cap, a :: w1 ++ w2 ++ rest)))).
    { apply in_flat_map. exists (c1, w2 ++ rest). split; [exact H1|].
      cbn [snd length].
      assert (E : (length (w2 ++ rest) <? S (length (w1 ++ w2 ++ rest))) = true).
      { apply Nat.ltb_lt. rewrite !length_app. lia. }
      rewrite E.
      rewrite (star_fuel g (m r) _ (length (w2 ++ rest)) (c1, w2 ++ rest));
        [exact H2| |]; cbn [snd]; rewrite !length_app; lia. }
    destruct g; [apply in_or_app; left|right]; exact Hin.
  - destruct (IH Hf cap rest) as [c1 H1].
    eexists. cbn [m]. apply in_map_iff. exists (c1, rest).
    split; [reflexivity | exact H1].
  - discriminate.
Qed.

(** ** Words of the patterns *)

Lemma lang_Lit (l : str) : lang (Lit l) l.
Proof.
  induction l as [|c l IH]; [constructor|].
  cbn [Lit]. change (c :: l) with ([c] ++ l).
  constructor; [|exact IH]. constructor. apply Ascii.eqb_refl.
Qed.

Lemma lang_Lit_inv (l w : str) : lang (Lit l) w -> w = l.
Proof.
  revert w. induction l as [|c l IH]; intros w H; cbn [Lit] in H.
  - now inversion H.
  - inversion H as [| |? ? w1 w2 H1 H2| | | | | |]; subst.
    apply lang_Chr_inv in H1 as [a [-> Ha]]. apply Ascii.eqb_eq in Ha.
    subst a. cbn [app]. f_equal. now apply IH.
Qed.

Lemma lang_Star_chr (g : bool) (p : ascii -> bool) (w : str) :
  forallb p w = true -> lang (Star g (Chr p)) w.
Proof.
  induction w as [|c w IH]; intros H; [constructor|].
  simpl in H. apply andb_true_iff in H as [Hc Hw].
  change (c :: w) with ([c] ++ w).
  constructor; [now constructor | now apply IH].
Qed.

Lemma lang_Plus_chr (p : ascii -> bool) (w : str) :
  w <> [] -> forallb p w = true -> lang (Plus (Chr p)) w.
Proof.
  destruct w as [|c w]; [congruence|]. intros _ H.
  simpl in H. apply andb_true_iff in H as [Hc Hw].
  unfold Plus. change (c :: w) with ([c] ++ w).
  constructor; [now constructor | now apply lang_Star_chr].
Qed.

Lemma lang_Opt_nil (r : regex) : lang (Opt r) [].
Proof. unfold Opt. apply lang_Alt_r. constructor. Qed.

(** Where a number starts, the number pattern has a word. *)
Lemma starts_unsigned_lang (s : str) :
  starts_unsigned s = true ->
  exists w rest,
    s = w ++ rest
    /\ lang (Seq (Star true (Chr is_digit))
                 (Seq (Opt (Chr is_dot))
                      (Seq (Plus (Chr is_digit)) exponent_re))) w.
Proof.
  destruct s as [|c t]; [discriminate|]. cbn [starts_unsigned]. intros H.
  apply orb_true_iff in H as [Hc|H].
  - exists [c], t. split; [reflexivity|].
    change [c] with ([] ++ [] ++ [c] ++ []).
    constructor; [constructor|].
    constructor; [apply lang_Opt_nil|].
    constructor; [|apply lang_Opt_nil].
    apply lang_Plus_chr; [discriminate | simpl; now rewrite Hc].
  - apply andb_true_iff in H as [Hc Hd].
    destruct t as [|d t]; [discriminate|].
    exists [c; d], t. split; [reflexivity|].
    change [c; d] with ([] ++ [c] ++ [d] ++ []).
    constructor; [constructor|].
    constructor; [apply lang_Alt_l; now constructor|].
    constructor; [|apply lang_Opt_nil].
    apply lang_Plus_chr; [discriminate | simpl; now rewrite Hd].
Qed.

Lemma starts_number_lang (s : str) :
  starts_number s = true ->
  exists w rest, s = w ++ rest /\ lang number_re w.
Proof.
  destruct s as [|c t]; [discriminate|]. cbn [starts_number].
  destruct (is_sign c) eqn:Hc; intros H;
    apply starts_unsigned_lang in H as [w [rest [E L]]].
  - exists (c :: w), rest. split; [cbn [app]; now rewrite E|].
    unfold number_re. change (c :: w) with ([c] ++ w).
    constructor; [apply lang_Alt_l; now constructor | exact L].
  - exists w, rest. split; [exact E|].
    unfold number_re. change w with ([] ++ w).
    constructor; [apply lang_Opt_nil | exact L].
Qed.

(** A number starts where a number is written. *)
Lemma numeral_starts (sg ip fp ex rest : str) :
  numeral sg ip fp ex = true ->
  starts_number (sg ++ ip ++ fp ++ ex ++ rest) = true.
Proof.
  intros Hnum. unfold numeral in Hnum.
  apply andb_true_iff in Hnum as [Hnum _].
  apply andb_true_iff in Hnum as [Hnum Hfp].
  apply andb_true_iff in Hnum as [Hsg Hip].
  assert (Hu : starts_unsigned (ip ++ fp ++ ex ++ rest) = true).
  { destruct ip as [|i ip].
    - destruct fp as [|c [|d fd]]; [discriminate Hfp| |].
      + apply andb_true_iff in Hfp as [Hfp _].
        apply andb_true_iff in Hfp as [_ Hfp]. discriminate Hfp.
      + apply andb_true_iff in Hfp as [Hfp Hfd].
        apply andb_true_iff in Hfp as [Hc _].
        simpl in Hfd. apply andb_true_iff in Hfd as [Hd _].
        cbn [app starts_unsigned]. rewrite Hc, Hd. apply orb_true_r.
    - simpl in Hip. apply andb_true_iff in Hip as [Hi _].
      cbn [app starts_unsigned]. now rewrite Hi. }
  destruct sg as [|c [|c' sg]]; [| |discriminate].
  - cbn [app]. destruct (ip ++ fp ++ ex ++ rest) as [|a t] eqn:E;
      [discriminate|].
    cbn [starts_number]. destruct (is_sign a) eqn:Ha; [|exact Hu].
    cbn [starts_unsigned] in Hu. apply orb_true_iff in Hu as [Hd|Hd].
    + destruct (is_digit_other a Hd) as [_ [Hs _]]. congruence.
    + apply andb_true_iff in Hd as [Hd _].
      pose proof (is_dot_not_sign a Hd). congruence.
  - cbn [app starts_number]. now rewrite Hsg.
Qed.

(** ** The positions at which the energy pattern matches *)

Lemma energy_at_match (s : str) :
  energy_at s = true -> m energy_pattern (None, s) <> [].
Proof.
  unfold energy_at. intros H. apply andb_true_iff in H as [Hl H].
  cbn zeta in H. apply andb_true_iff in H as [Hsp Hnum].
  apply startswith_split in Hl.
  remember (skipn (length ENERGY_LABEL) s) as y eqn:Ey. clear Ey.
  apply starts_number_lang in Hnum as [w [rest [E Lw]]].
  assert (Ey : y = takewhile is_space y ++ dropwhile is_space y).
  { clear. induction y as [|c y IH]; [reflexivity|]. simpl.
    destruct (is_space c); [|reflexivity]. cbn [app]. now f_equal. }
  assert (Hne : takewhile is_space y <> []).
  { destruct y as [|c y]; [discriminate|]. simpl. rewrite Hsp. discriminate. }
  assert (Hws : forallb is_space (takewhile is_space y) = true).
  { clear. induction y as [|c y IH]; [reflexivity|]. simpl.
    destruct (is_space c) eqn:Hc; [|reflexivity]. simpl. now rewrite Hc. }
  assert (L : lang energy_pattern
                   (ENERGY_LABEL ++ takewhile is_space y ++ w)).
  { unfold energy_pattern. constructor; [apply lang_Lit|].
    constructor; [now apply lang_Plus_chr | now constructor]. }
  destruct (m_complete _ _ L eq_refl None rest) as [cap' Hin].
  rewrite <- !app_assoc, <- E, <- Ey, <- Hl in Hin.
  intros Hnil. rewrite Hnil in Hin. exact Hin.
Qed.

Lemma energy_match_shape (cap : option str) (s : str) (st : mstate) :
  In st (m energy_pattern (cap, s)) ->
  exists ws sg ip fp ex,
    s = ENERGY_LABEL ++ ws ++ (sg ++ ip ++ fp ++ ex) ++ snd st
    /\ ws <> [] /\ forallb is_space ws = true
    /\ numeral sg ip fp ex = true
    /\ fst st = Some (sg ++ ip ++ fp ++ ex).
Proof.
  unfold energy_pattern. rewrite m_Seq. intros Hin.
  apply in_flat_map in Hin as [x [Hx Hin]]. rewrite m_Seq in Hin.
  apply in_flat_map in Hin as [z [Hz Hin]]. cbn [m] in Hin.
  apply in_map_iff in Hin as [st' [<- Hst']].
  destruct (m_sound _ _ _ Hx) as [l [El Ll]].
  destruct (m_sound _ _ _ Hz) as [ws [Ews Lws]].
  destruct (m_sound _ _ _ Hst') as [w [Ew Lw]].
  apply lang_Lit_inv in Ll. subst l.
  apply lang_Plus_chr_inv in Lws as [Hne Hws].
  destruct (lang_number w Lw) as [sg [ip [fp [ex [-> Hnum]]]]].
  exists ws, sg, ip, fp, ex. cbn [snd fst] in *.
  rewrite El, Ews, Ew, firstn_app_sub. repeat split; assumption.
Qed.

Lemma energy_match_at (s : str) :
  m energy_pattern (None, s) <> [] -> energy_at s = true.
Proof.
  destruct (m energy_pattern (None, s)) as [|st l] eqn:E; [congruence|].
  intros _.
  destruct (energy_match_shape None s st) as
      [ws [sg [ip [fp [ex [Es [Hne [Hws [Hnum _]]]]]]]]];
    [rewrite E; now left|].
  unfold energy_at. rewrite Es, startswith_app, skipn_app, skipn_all.
  rewrite Nat.sub_diag. cbn [skipn app andb].
  apply andb_true_iff. split.
  - destruct ws as [|c ws]; [congruence|]. simpl in Hws.
    apply andb_true_iff in Hws as [Hc _]. exact Hc.
  - rewrite <- !app_assoc.
    rewrite dropwhile_run;
      [now apply numeral_starts | exact Hws
       | now apply numeral_first_char].
Qed.

(** [re.search] with the energy pattern stops at the first position at
    which the label is followed by white space and the start of a
    number. *)
Lemma re_search_energy (pre s : str) :
  energy_pos (pre ++ s) = Some (length pre) ->
  re_search energy_pattern (pre ++ s) = first_match energy_pattern (None, s)
  /\ energy_at s = true.
Proof.
  induction pre as [|c pre IH]; cbn [app length]; intros H.
  - assert (Hat : energy_at s = true).
    { destruct s as [|a s]; cbn [energy_pos] in H;
        destruct (energy_at _); try reflexivity; try discriminate H.
      destruct (energy_pos s); discriminate H. }
    split; [|exact Hat]. apply energy_at_match in Hat.
    rewrite re_search_eq. unfold first_match.
    destruct (m energy_pattern (None, s)); [congruence | reflexivity].
  - cbn [energy_pos] in H.
    destruct (energy_at (c :: pre ++ s)) eqn:Hat; [discriminate|].
    destruct (energy_pos (pre ++ s)) as [n|] eqn:Hp; [|discriminate].
    injection H as ->. rewrite re_search_eq.
    destruct (m energy_pattern (None, c :: pre ++ s)) as [|x l] eqn:E.
    + now apply IH.
    + rewrite energy_match_at in Hat; [discriminate|]. now rewrite E.
Qed.

Lemma re_search_energy_none (s : str) :
  energy_pos s = None -> re_search energy_pattern s = None.
Proof.
  induction s as [|c s IH]; cbn [energy_pos]; intros H;
    destruct (energy_at _) eqn:Hat; try discriminate H;
    rewrite re_search_eq;
    destruct (m energy_pattern (None, _)) as [|x l] eqn:E;
    try (rewrite energy_match_at in Hat; [discriminate | now rewrite E]).
  - reflexivity.
  - apply IH. destruct (energy_pos s); [discriminate | reflexivity].
Qed.

Lemma energy_pos_split (s : str) (n : nat) :
  energy_pos s = Some n ->
  exists pre tl, s = pre ++ tl /\ length pre = n.
Proof.
  revert n. induction s as [|c s IH]; intros n; cbn [energy_pos];
    destruct (energy_at _); intros H; try discriminate H.
  - injection H as <-. now exists [], [].
  - injection H as <-. now exists [], (c :: s).
  - destruct (energy_pos s) as [k|]; [|discriminate].
    injection H as <-. destruct (IH k eq_refl) as [pre [tl [-> <-]]].
    now exists (c :: pre), tl.
Qed.

(** ** The energy *)



